(** * exchange-rates: a shallow embedding of the request builder, the query
    string assembler, the fetch pipeline, the averaging and the conversion
    helper, with the properties of the specification stated over it.

    Conventions of the embedding.
    - A JavaScript string is a [string] of bytes holding its UTF-8 text.
    - A JavaScript number is an IEEE-754 binary64 value, [float].
    - A function that may throw returns [js_error + A] ([inl e] is
      [throw e]); a function returning a promise returns [outcome A].
    - A plain JavaScript object used as a dictionary is an association list
      in insertion order. That is the order [Object.keys] enumerates keys
      that are no array indices; the query string builder, whose keys are
      whatever its caller passes, puts array indices first ([own_keys]).
    - Arrays handed to the library by its caller live in a [heap], since the
      library keeps and mutates them by reference.
    - [toUpperCase] is modelled on ASCII text; what is stated of a text
      that is refused as a currency code is stated for ASCII text. *)

From Stdlib Require Import ZArith List String Ascii Lia Bool.
From Stdlib Require Import DecimalString PrimFloat Uint63.
From Stdlib Require SpecFloat FloatOps.
From stdpp Require Import base option list gmap strings.

Set Warnings "-inexact-float,-register-all".
Local Open Scope Z_scope.

(** Appending to a literal unfolds under [simpl]. *)
#[local] Arguments String.append !s1 s2 : simpl nomatch.

(* ================================================================== *)
(** ** Strings *)

Fixpoint str_forall (p : ascii -> bool) (s : string) : bool :=
  match s with
  | EmptyString => true
  | String a r => p a && str_forall p r
  end.

Definition in_range (lo hi : N) (a : ascii) : bool :=
  (N.leb lo (N_of_ascii a) && N.leb (N_of_ascii a) hi)%bool.

Definition is_digit (a : ascii) : bool := in_range 48 57 a.
Definition is_lower (a : ascii) : bool := in_range 97 122 a.
Definition is_upper (a : ascii) : bool := in_range 65 90 a.

(** Text of ASCII characters only: no byte of a multi-byte character. *)
Definition is_ascii (a : ascii) : bool := N.ltb (N_of_ascii a) 128.
Definition ascii_text (s : string) : bool := str_forall is_ascii s.

(** [String.prototype.toUpperCase] on ASCII text ([ascii_text]): the letters
    [a-z] become [A-Z], and no locale changes that. JavaScript also maps
    letters outside ASCII (dotless i to [I], long s to [S]); that mapping is
    not modelled, the bytes of such characters are left as they are, and the
    properties that depend on a text being refused are stated for ASCII
    text. *)
Definition upper_ascii (a : ascii) : ascii :=
  if is_lower a then ascii_of_N (N_of_ascii a - 32) else a.

Fixpoint toUpperCase (s : string) : string :=
  match s with
  | EmptyString => EmptyString
  | String a r => String (upper_ascii a) (toUpperCase r)
  end.

(** The characters [encodeURIComponent] leaves alone:
    [A-Z a-z 0-9 - _ . ! ~ * ' ( )]. *)
Definition uri_unreserved (a : ascii) : bool :=
  is_digit a || is_lower a || is_upper a ||
  existsb (Ascii.eqb a)
    ["-"; "_"; "."; "!"; "~"; "*"; "'"; "("; ")"]%char.

Definition hex_digit (n : N) : ascii :=
  if N.ltb n 10 then ascii_of_N (48 + n) else ascii_of_N (55 + n).

Definition pct_encode (a : ascii) : string :=
  String "%" (String (hex_digit (N_of_ascii a / 16))
             (String (hex_digit (N_of_ascii a mod 16)) EmptyString)).

(** [encodeURIComponent]: every byte outside the unreserved set becomes
    [%XX]. *)
Fixpoint encodeURIComponent (s : string) : string :=
  match s with
  | EmptyString => EmptyString
  | String a r =>
      (if uri_unreserved a then String a EmptyString else pct_encode a)
      +:+ encodeURIComponent r
  end.

(** [Array.prototype.join]. *)
Fixpoint join (sep : string) (l : list string) : string :=
  match l with
  | [] => EmptyString
  | [x] => x
  | x :: r => x +:+ sep +:+ join sep r
  end.

(** [str.endsWith('/')]. *)
Fixpoint endsWith_slash (s : string) : bool :=
  match s with
  | EmptyString => false
  | String a EmptyString => Ascii.eqb a "/"
  | String _ r => endsWith_slash r
  end.

(** [str.substring(0, str.length - 1)]. *)
Fixpoint drop_last (s : string) : string :=
  match s with
  | EmptyString => EmptyString
  | String _ EmptyString => EmptyString
  | String a r => String a (drop_last r)
  end.

(** Decimal text of an integer, as a template literal renders a number that
    holds an integer. *)
Definition show_Z (z : Z) : string := NilZero.string_of_int (Z.to_int z).
Definition show_N (n : N) : string := NilZero.string_of_uint (N.to_uint n).

(* ================================================================== *)
(** ** Errors, thrown values and promises *)

(** The two error classes the library throws itself, and the errors of the
    collaborators (a [SyntaxError] of [response.json()], a [FetchError] of
    the transport, a [RangeError] of [toFixed]). *)
Inductive js_error :=
| ExchangeRatesError (msg : string)
| TypeError (msg : string)
| ForeignError (name msg : string).

(** [err.message]. *)
Definition message (e : js_error) : string :=
  match e with
  | ExchangeRatesError m | TypeError m | ForeignError _ m => m
  end.

(** A settled promise. *)
Definition promise (A : Type) : Type := js_error + A.

(** [p.then(f)]: [f] runs on the resolved value; what [f] throws, or the
    rejection of the promise it returns, rejects the result. *)
Definition then_ {A B} (p : promise A) (f : A -> promise B) : promise B :=
  match p with
  | inl e => inl e
  | inr a => f a
  end.

(** [p.catch(f)]. *)
Definition catch_ {A} (p : promise A) (f : js_error -> promise A) : promise A :=
  match p with
  | inl e => f e
  | inr a => inr a
  end.

(** What a call of a promise-returning function does: throw before any
    promise exists, or hand back a promise that rejects or resolves. *)
Inductive outcome (A : Type) :=
| Throws (e : js_error)
| Rejects (e : js_error)
| Resolves (a : A).
Arguments Throws {A} e.
Arguments Rejects {A} e.
Arguments Resolves {A} a.

Definition settle {A} (p : promise A) : outcome A :=
  match p with
  | inl e => Rejects e
  | inr a => Resolves a
  end.

(* ================================================================== *)
(** ** Values *)

(** Heap addresses of arrays. *)
Definition loc := nat.

(** The arguments the configuration calls inspect with [typeof] and
    [Array.isArray]. [VOther] stands for [null], [undefined], booleans and
    non-array objects. *)
Inductive value :=
| VStr (s : string)
| VNum (n : float)
| VArr (l : loc)
| VOther.

(** A date argument: text, or a [Date] instance with its time value in
    milliseconds since the epoch ([None] is the time value [NaN] of an
    [Invalid Date]). Other arguments (numbers, [null]) are not part of the
    model. *)
Inductive date_input :=
| RawText (s : string)
| StructuredDate (time : option Z).

(** Parsed response bodies: numbers and objects; the other kinds of JSON
    values are not part of the model. *)
Inductive json :=
| JNum (n : float)
| JObj (props : list (string * json)).

(** A value that, when it is text, is ASCII text. *)
Definition ascii_value (v : value) : bool :=
  match v with
  | VStr s => ascii_text s
  | _ => true
  end.

Definition is_text (d : date_input) (s : string) : bool :=
  match d with
  | RawText t => String.eqb t s
  | StructuredDate _ => false
  end.

(* ================================================================== *)
(** ** Objects as dictionaries *)

Section Obj.
Context {V : Type}.

(** [Object.keys(o)], [Object.values(o)] and [o[k]]. *)
Definition obj_keys (o : list (string * V)) : list string := map fst o.
Definition obj_values (o : list (string * V)) : list V := map snd o.

Fixpoint obj_get (o : list (string * V)) (k : string) : option V :=
  match o with
  | [] => None
  | (k', v) :: r => if String.eqb k' k then Some v else obj_get r k
  end.

(** [o[k] = v]: overwrite in place, or add a new last property. *)
Fixpoint obj_set (o : list (string * V)) (k : string) (v : V)
  : list (string * V) :=
  match o with
  | [] => [(k, v)]
  | (k', v') :: r =>
      if String.eqb k' k then (k', v) :: r else (k', v') :: obj_set r k v
  end.
End Obj.

(** The properties a plain object inherits from [Object.prototype]: the
    [in] operator and a read [o[k]] find them although they are no own
    keys. *)
Definition inherited (k : string) : bool :=
  existsb (String.eqb k)
    ["constructor"; "toString"; "toLocaleString"; "valueOf";
     "hasOwnProperty"; "isPrototypeOf"; "propertyIsEnumerable"; "__proto__";
     "__defineGetter__"; "__defineSetter__"; "__lookupGetter__";
     "__lookupSetter__"].

(** [Object.keys], [Object.values] and an own-property read on a parsed
    body; a number has no own keys. *)
Definition Object_keys (j : json) : list string :=
  match j with
  | JObj props => obj_keys props
  | JNum _ => []
  end.

Definition Object_values (j : json) : list json :=
  match j with
  | JObj props => obj_values props
  | JNum _ => []
  end.

Definition prop (j : json) (k : string) : option json :=
  match j with
  | JObj props => obj_get props k
  | JNum _ => None
  end.

(** [array.length] as a number. *)
Definition of_length (n : nat) : float :=
  PrimFloat.of_uint63 (Uint63.of_Z (Z.of_nat n)).

(* ================================================================== *)
(** ** Dates *)

(** The calendar fields of a [Date] in the local time zone, as
    [getFullYear()], [getMonth() + 1] and [getDate()] give them. *)
Record civil := Civil { year : Z; month : Z; day : Z }.

(** The fields of a time value in UTC (days since the epoch are split into
    400-year eras of 146097 days, counted from March 1st). *)
Definition civil_from_days (days : Z) : civil :=
  let z := days + 719468 in
  let era := z / 146097 in
  let doe := z - era * 146097 in
  let yoe := (doe - doe / 1460 + doe / 36524 - doe / 146096) / 365 in
  let doy := doe - (365 * yoe + yoe / 4 - yoe / 100) in
  let mp := (5 * doy + 2) / 153 in
  let d := doy - (153 * mp + 2) / 5 + 1 in
  let m := if mp <? 10 then mp + 3 else mp - 9 in
  Civil (yoe + era * 400 + (if m <=? 2 then 1 else 0)) m d.

Definition utc_civil (time : Z) : civil := civil_from_days (time / 86400000).

(** date-fns [addLeadingZeros]: the decimal text of [Math.abs(n)], padded on
    the left with zeros up to [len] characters. *)
Fixpoint pad_zeros (fuel : nat) (output : string) : string :=
  match fuel with
  | O => output
  | S fuel => pad_zeros fuel ("0" +:+ output)
  end.

Definition addLeadingZeros (n : Z) (len : nat) : string :=
  let output := show_N (Z.to_N (Z.abs n)) in
  pad_zeros (len - String.length output) output.

(** The text of format [YYYY-MM-DD]. *)
Definition format_civil (c : civil) : string :=
  addLeadingZeros (year c) 4 +:+ "-" +:+
  addLeadingZeros (month c) 2 +:+ "-" +:+
  addLeadingZeros (day c) 2.

(* ================================================================== *)
(** ** Collaborators *)

(** What [fetch(url)] resolves to: a status and the promise of
    [response.json()]. *)
Record response := Response { status : Z; json_body : promise json }.

(** The code outside the library that it calls.
    - [parse_text]: the time value of the [Date] date-fns [parse] makes of a
      string ([None] for an [Invalid Date]);
    - [local_civil]: the calendar fields of a time value in the time zone of
      the process;
    - [date_text]: the text of a [Date] in a template literal;
    - [currenciesList]: the keys of the catalog object [./currencies];
    - [global_fetch]: the transport, [fetch(url)];
    - [toFixed]: [+x.toFixed(d)], the number read back from the fixed-point
      text of [x], or the [RangeError] of a [d] the engine rejects;
    - [elem_text]: the text [join] writes for an array element that is not a
      string. *)
Record Collaborators := {
  parse_text : string -> option Z;
  local_civil : Z -> civil;
  date_text : option Z -> string;
  currenciesList : list string;
  global_fetch : string -> promise response;
  toFixed : float -> Z -> js_error + float;
  elem_text : value -> string;
}.

(** The heap of arrays. *)
Abbreviation heap := (gmap loc (list value)).

(** The instance state of [class ExchangeRates]. [_to], [_base] and
    [_symbols] are [None] while they hold [null]; [_symbols] holds a
    reference to an array. *)
Record ExchangeRates := {
  _api_base_url : string;
  _base : option string;
  _symbols : option loc;
  _from : date_input;
  _to : option date_input;
}.

(** The state the calls act on: the fields of the instance and the arrays
    reachable from it or from its caller. *)
Record state := { this : ExchangeRates; mem : heap }.

Definition with_this (st : state) (t : ExchangeRates) : state :=
  {| this := t; mem := mem st |}.
Definition with_mem (st : state) (h : heap) : state :=
  {| this := this st; mem := h |}.

Definition API_BASE_URL : string := "https://api.ratesapi.io".

(** [new ExchangeRates()]. *)
Definition new_ExchangeRates : ExchangeRates :=
  {| _api_base_url := API_BASE_URL;
     _base := None;
     _symbols := None;
     _from := RawText "latest";
     _to := None |}.

(** [exchangeRates()], with the arrays of the caller. *)
Definition exchangeRates (h : heap) : state :=
  {| this := new_ExchangeRates; mem := h |}.

(** The messages of the errors, as the source writes them. *)
Definition InvalidRangeRequest : js_error :=
  ExchangeRatesError
    "Cannot set the 'from' date to 'latest' when fetching a date range".
Definition InvalidDateOrder : js_error :=
  ExchangeRatesError "The 'from' date cannot be after the 'to' date".
Definition DateOutOfRange : js_error :=
  ExchangeRatesError "Cannot get historical rates before 1999".
Definition UnknownCurrency (currency : string) : js_error :=
  ExchangeRatesError (currency +:+ " is not a valid currency").
Definition InvalidDate (shown : string) : js_error :=
  ExchangeRatesError (shown +:+ " is not a valid date").
Definition ApiError (status : Z) : js_error :=
  ExchangeRatesError
    ("API returned a bad response (HTTP " +:+ show_Z status +:+ ")").
Definition FetchFailed (cause : string) : js_error :=
  ExchangeRatesError ("Couldn't fetch the exchange rate, " +:+ cause).

(** Sequencing of statements that may throw. *)
Notation "'do' x <- c1 ; c2" :=
  (match c1 with inl e => inl e | inr x => c2 end)
  (at level 60, x name, c1 at next level, right associativity).
Notation "'throw_if' b 'then' e ; c" :=
  (if b then inl e else c)
  (at level 60, b at next level, e at next level, right associativity).

(* ================================================================== *)
(** ** query-string-builder.js *)

(** The [_obj] of a [QueryStringBuilder]: its own properties in the order
    they were created. Keys and values are text. *)
Definition QueryStringBuilder : Type := list (string * string).

Definition new_QueryStringBuilder : QueryStringBuilder := [].

(** An array index: the decimal text, without a leading zero, of an integer
    from 0 to 2^32 - 2. *)
Fixpoint digits_value (acc : N) (s : string) : option N :=
  match s with
  | EmptyString => Some acc
  | String a r =>
      if is_digit a then digits_value (10 * acc + (N_of_ascii a - 48)) r
      else None
  end.

Definition array_index (k : string) : option N :=
  match k with
  | EmptyString => None
  | String a r =>
      if Ascii.eqb a "0" && negb (String.eqb r "") then None
      else
        match digits_value 0 k with
        | Some n => if N.leb n 4294967294 then Some n else None
        | None => None
        end
  end.

Definition is_index (k : string) : bool :=
  match array_index k with Some _ => true | None => false end.

Fixpoint insert_index (x : N * string) (l : list (N * string))
  : list (N * string) :=
  match l with
  | [] => [x]
  | y :: r => if N.leb (fst x) (fst y) then x :: l else y :: insert_index x r
  end.

(** [Object.keys] on own keys given in creation order: the array indices
    first, in ascending numeric order, then the other keys in creation
    order. *)
Definition own_keys (created : list string) : list string :=
  map snd
    (fold_right insert_index []
       (flat_map (fun k => match array_index k with
                           | Some n => [(n, k)]
                           | None => []
                           end) created)) ++
  List.filter (fun k => negb (is_index k)) created.

(** [this._obj[paramKey] = paramVal]. The key [__proto__] names the accessor
    every object inherits: its setter ignores a value that is no object, so
    that assignment creates no property. *)
Definition addParam (qs : QueryStringBuilder) (key val : string)
    (encode : bool) : QueryStringBuilder :=
  let paramKey := if encode then encodeURIComponent key else key in
  let paramVal := if encode then encodeURIComponent val else val in
  if String.eqb paramKey "__proto__" then qs else obj_set qs paramKey paramVal.

Definition _build (obj : QueryStringBuilder) : string :=
  let qs :=
    join "&"
      (map (fun key =>
              key +:+ "=" +:+
              match obj_get obj key with Some v => v | None => "undefined" end)
         (own_keys (obj_keys obj))) in
  if Nat.eqb (String.length qs) 0 then "" else "?" +:+ qs.

(* ================================================================== *)
(** ** utils.js *)

Definition untrailingSlashIt (str : string) : string :=
  if endsWith_slash str then drop_last str else str.

Section Client.
Variable env : Collaborators.

(** date-fns [parse]: a [Date] is cloned, text is parsed; the result is
    always a [Date], given here by its time value. *)
Definition parse (d : date_input) : option Z :=
  match d with
  | RawText s => parse_text env s
  | StructuredDate t => t
  end.

(** date-fns [isValid]: throws unless its argument is a [Date]. *)
Definition isValid (d : date_input) : js_error + bool :=
  match d with
  | StructuredDate t => inr (bool_decide (is_Some t))
  | RawText _ => inl (TypeError "[object String] is not an instance of Date")
  end.

(** date-fns [getYear]; [None] is [NaN]. *)
Definition getYear (d : date_input) : option Z :=
  match parse d with
  | Some t => Some (year (local_civil env t))
  | None => None
  end.

(** date-fns [isAfter]: a comparison of time values, false on [NaN]. *)
Definition isAfter (d dateToCompare : date_input) : bool :=
  match parse d, parse dateToCompare with
  | Some t, Some t' => t' <? t
  | _, _ => false
  end.

Definition parseDate (date : date_input) : js_error + date_input :=
  let parsedDate := StructuredDate (parse date) in
  match isValid parsedDate with
  | inl _ => inl (InvalidDate (date_text env (parse date)))
  | inr _ => inr date
  end.

Definition formatDate (date : date_input) : string :=
  match parse date with
  | Some t => format_civil (local_civil env t)
  | None => "Invalid Date"
  end.

(* ---------------------------------------------------------------- *)
(** *** class ExchangeRates *)

(** [currency in currenciesList]: own keys of the catalog and the
    properties every plain object inherits. *)
Definition in_currenciesList (currency : string) : bool :=
  existsb (String.eqb currency) (currenciesList env) || inherited currency.

Definition _validateCurrency (currency : string) : js_error + unit :=
  throw_if negb (in_currenciesList currency)
  then UnknownCurrency currency;
  inr tt.

Definition _isHistoryRequest (this : ExchangeRates) : bool :=
  match _to this with Some _ => true | None => false end.

Definition _validate (this : ExchangeRates) : js_error + unit :=
  do _ <- match _to this with
          | Some to_ =>
              throw_if is_text (_from this) "latest" then InvalidRangeRequest;
              throw_if isAfter (_from this) to_ then InvalidDateOrder;
              inr tt
          | None => inr tt
          end;
  throw_if negb (is_text (_from this) "latest") &&
           match getYear (_from this) with
           | Some y => y <? 1999
           | None => false
           end
  then DateOutOfRange;
  inr tt.

(** The text [join] writes for an element. *)
Definition text_of (v : value) : string :=
  match v with
  | VStr s => s
  | _ => elem_text env v
  end.

Definition array_at (h : heap) (l : loc) : list value :=
  match h !! l with Some a => a | None => [] end.

Definition _buildUrl (this : ExchangeRates) (h : heap) : string :=
  let url := _api_base_url this +:+ "/" in
  let qs := new_QueryStringBuilder in
  let '(url, qs) :=
    match _to this with
    | Some to_ =>
        (url +:+ "history",
         addParam (addParam qs "start_at" (formatDate (_from this)) true)
           "end_at" (formatDate to_) true)
    | None =>
        (url +:+ (if is_text (_from this) "latest" then "latest"
                  else formatDate (_from this)), qs)
    end in
  let qs :=
    match _base this with
    | Some b => if String.eqb b "" then qs else addParam qs "base" b true
    | None => qs
    end in
  let qs :=
    match _symbols this with
    | Some l =>
        addParam qs "symbols" (join "," (map text_of (array_at h l))) false
    | None => qs
    end in
  url +:+ _build qs.

(** The configuration calls assign fields of [this] and elements of the
    arrays they are handed: they are state transformers. Each returns the
    state as the call leaves it, and [inl e] when it throws [e] ([inr tt] is
    [return this]). *)
Definition method : Type := state -> state * (js_error + unit).

Definition setApiBaseUrl (url : string) : method := fun st =>
  (with_this st
     {| _api_base_url := untrailingSlashIt url;
        _base := _base (this st); _symbols := _symbols (this st);
        _from := _from (this st); _to := _to (this st) |},
   inr tt).

Definition set_from (st : state) (d : date_input) : state :=
  with_this st
    {| _api_base_url := _api_base_url (this st);
       _base := _base (this st); _symbols := _symbols (this st);
       _from := d; _to := _to (this st) |}.

Definition at_ (date : date_input) : method := fun st =>
  match parseDate date with
  | inl e => (st, inl e)
  | inr d => (set_from st d, inr tt)
  end.

Definition latest : method := fun st =>
  (set_from st (RawText "latest"), inr tt).

Definition from (date : date_input) : method := fun st =>
  match parseDate date with
  | inl e => (st, inl e)
  | inr d => (set_from st d, inr tt)
  end.

Definition to (date : date_input) : method := fun st =>
  match parseDate date with
  | inl e => (st, inl e)
  | inr d =>
      (with_this st
         {| _api_base_url := _api_base_url (this st);
            _base := _base (this st); _symbols := _symbols (this st);
            _from := _from (this st); _to := Some d |},
       inr tt)
  end.

Definition base (currency : value) : method := fun st =>
  match currency with
  | VStr currency =>
      let currencyUpper := toUpperCase currency in
      match _validateCurrency currencyUpper with
      | inl e => (st, inl e)
      | inr _ =>
          (with_this st
             {| _api_base_url := _api_base_url (this st);
                _base := Some currencyUpper; _symbols := _symbols (this st);
                _from := _from (this st); _to := _to (this st) |},
           inr tt)
      end
  | _ => (st, inl (TypeError "Base currency has to be a string"))
  end.

(** The loop of [symbols] over the array at [l], from index [i]: each
    element is read from the heap and its upper-cased text written back
    before the next one is looked at. *)
Fixpoint symbols_loop (fuel i : nat) (l : loc) (h : heap)
  : heap * (js_error + unit) :=
  match fuel with
  | O => (h, inr tt)
  | S fuel =>
      match array_at h l !! i with
      | None => (h, inr tt)
      | Some (VStr currency) =>
          let currency := toUpperCase currency in
          match _validateCurrency currency with
          | inl e => (h, inl e)
          | inr _ =>
              symbols_loop fuel (S i) l
                (<[l := <[i := VStr currency]> (array_at h l)]> h)
          end
      | Some _ =>
          (h, inl (TypeError "Symbol currencies have to be strings"))
      end
  end.

(** [symbols]: [currenciesArray] is the caller's own array when one is
    passed, a new one-element array otherwise. *)
Definition symbols (currencies : value) : method := fun st =>
  let '(currenciesArray, h) :=
    match currencies with
    | VArr l => (l, mem st)
    | _ => let l := fresh (dom (mem st)) in (l, <[l := [currencies]]> (mem st))
    end in
  match symbols_loop (length (array_at h currenciesArray)) 0
          currenciesArray h with
  | (h, inl e) => (with_mem st h, inl e)
  | (h, inr _) =>
      ({| this :=
            {| _api_base_url := _api_base_url (this st);
               _base := _base (this st); _symbols := Some currenciesArray;
               _from := _from (this st); _to := _to (this st) |};
          mem := h |},
       inr tt)
  end.

(** A chain of calls [a.b().c()]: the next call runs unless one threw. *)
Definition chain (m1 m2 : method) : method := fun st =>
  match m1 st with
  | (st, inl e) => (st, inl e)
  | (st, inr _) => m2 st
  end.

(** The getter [url]. *)
Definition url (this : ExchangeRates) (h : heap) : js_error + string :=
  do _ <- _validate this; inr (_buildUrl this h).

(* ---------------------------------------------------------------- *)
(** *** fetch *)

(** The collapse of a rates object: its only value when it has exactly one
    key, the object itself otherwise. It is the body of the second [then]
    of [fetch]. *)
Definition normalize (rates : json) : json :=
  let keys := Object_keys rates in
  if Nat.eqb (length keys) 1 then
    match keys with
    | k :: _ => match prop rates k with Some v => v | None => rates end
    | [] => rates
    end
  else rates.

Definition on_response (r : response) : promise json :=
  throw_if negb (status r =? 200) then ApiError (status r);
  json_body r.

(** [data.rates] is [undefined] when the body has no such property, and
    [Object.keys(undefined)] throws. *)
Definition on_data (data : json) : promise json :=
  match prop data "rates" with
  | Some rates => inr (normalize rates)
  | None => inl (TypeError "Cannot convert undefined or null to object")
  end.

Definition on_error (err : js_error) : promise json :=
  inl (FetchFailed (message err)).

Definition fetch (this : ExchangeRates) (h : heap) : outcome json :=
  match _validate this with
  | inl e => Throws e
  | inr _ =>
      settle
        (catch_
           (then_ (then_ (global_fetch env (_buildUrl this h)) on_response)
              on_data)
           on_error)
  end.

(** [o.then(f)] on the outcome of a call. *)
Definition and_then {A B} (o : outcome A) (f : A -> promise B) : outcome B :=
  match o with
  | Throws e => Throws e
  | Rejects e => Rejects e
  | Resolves a => settle (f a)
  end.

(* ---------------------------------------------------------------- *)
(** *** avg *)

(** The argument [decimalPlaces]: [null], a number that
    [Number.isInteger] accepts, or anything else. *)
Inductive places := NoPlaces | IntPlaces (d : Z) | BadPlaces.

(** [mergedObj[key] = mergedObj[key] || []; mergedObj[key].push(v)]. An
    inherited property is found in place of a missing own one, and has no
    [push]. *)
Definition merge_push (mergedObj : list (string * list json))
    (key : string) (v : json) : js_error + list (string * list json) :=
  match obj_get mergedObj key with
  | Some arr =>
      let mergedObj := obj_set mergedObj key arr in
      inr (obj_set mergedObj key (arr ++ [v]))
  | None =>
      throw_if inherited key
      then TypeError "mergedObj[key].push is not a function";
      let mergedObj := obj_set mergedObj key [] in
      inr (obj_set mergedObj key ([] ++ [v]))
  end.

(** A [forEach] whose callback may throw. *)
Fixpoint forEach {A S} (l : list A) (f : S -> A -> js_error + S) (s : S)
  : js_error + S :=
  match l with
  | [] => inr s
  | a :: r => do s <- f s a; forEach r f s
  end.

Definition merge_obj (mergedObj : list (string * list json)) (obj : json)
  : js_error + list (string * list json) :=
  forEach (Object_keys obj)
    (fun mergedObj key =>
       match prop obj key with
       | Some v => merge_push mergedObj key v
       | None => inr mergedObj
       end)
    mergedObj.

(** [p + c] in [reduce((p, c) => p + c, 0)]: a sum of numbers while both
    are numbers; once an object is added the result is text ([None]),
    and stays text. *)
Definition plus (p : option float) (c : json) : option float :=
  match p, c with
  | Some p, JNum c => Some (p + c)%float
  | _, _ => None
  end.

(** The number [/] makes of the reduced value: text holding
    [[object Object]] is [NaN]. *)
Definition to_number (p : option float) : float :=
  match p with
  | Some x => x
  | None => nan
  end.

Definition avgRate (values : list json) : float :=
  (to_number (fold_left plus values (Some 0%float))
   / of_length (length values))%float.

Definition round_rate (decimalPlaces : places) (rate : float)
  : js_error + float :=
  match decimalPlaces with
  | IntPlaces d => toFixed env rate d
  | _ => inr rate
  end.

Definition avg_rates (decimalPlaces : places)
    (mergedObj : list (string * list json)) (keys : list string)
  : js_error + list (string * float) :=
  forEach keys
    (fun avgRates key =>
       match obj_get mergedObj key with
       | Some values =>
           do r <- round_rate decimalPlaces (avgRate values);
           inr (obj_set avgRates key r)
       | None => inr avgRates
       end)
    [].

Definition rates_object (avgRates : list (string * float)) : json :=
  JObj (map (fun kv => (fst kv, JNum (snd kv))) avgRates).

(** [(keys.length === 1) ? avgRates[keys[0]] : avgRates]. *)
Definition single_or_all (keys : list string)
    (avgRates : list (string * float)) : json :=
  if Nat.eqb (length keys) 1 then
    match keys with
    | k :: _ =>
        match obj_get avgRates k with
        | Some r => JNum r
        | None => rates_object avgRates
        end
    | [] => rates_object avgRates
    end
  else rates_object avgRates.

(** The callback of [this.fetch().then] in [avg]. *)
Definition on_rates (this : ExchangeRates) (decimalPlaces : places)
    (rates : json) : promise json :=
  if negb (_isHistoryRequest this) then inr rates
  else
    do mergedObj <- forEach (Object_values rates) merge_obj [];
    let keys := obj_keys mergedObj in
    do avgRates <- avg_rates decimalPlaces mergedObj keys;
    inr (single_or_all keys avgRates).

Definition avg (this : ExchangeRates) (h : heap) (decimalPlaces : places)
  : outcome json :=
  match decimalPlaces with
  | BadPlaces =>
      Throws (ExchangeRatesError
                "The decimal places parameter has to be an integer")
  | IntPlaces d =>
      if d <? 0
      then Throws (ExchangeRatesError "Decimal places cannot be negative")
      else and_then (fetch this h) (on_rates this decimalPlaces)
  | NoPlaces => and_then (fetch this h) (on_rates this decimalPlaces)
  end.

(* ---------------------------------------------------------------- *)
(** *** convert *)

(** [rate * amount]: a plain object converts to [NaN]. *)
Definition times (rate : json) (amount : float) : float :=
  match rate with
  | JNum r => (r * amount)%float
  | JObj _ => (nan * amount)%float
  end.

Definition convert (h : heap) (amount fromCurrency toCurrency : value)
    (date : date_input) : outcome float :=
  match amount with
  | VNum amount =>
      match toCurrency with
      | VArr _ =>
          Throws (TypeError
                    "Cannot convert to multiple currencies at the same time")
      | _ =>
          let instance := exchangeRates h in
          match chain (if is_text date "latest" then latest else at_ date)
                  (chain (base fromCurrency) (symbols toCurrency))
                  instance with
          | (_, inl e) => Throws e
          | (instance, inr _) =>
              and_then (fetch (this instance) (mem instance))
                (fun rate => inr (times rate amount))
          end
      end
  | _ => Throws (TypeError "The 'amount' parameter has to be a number")
  end.
End Client.

(* ================================================================== *)
(** ** A concrete environment *)

(** Days since the epoch of a calendar date. *)
Definition days_from_civil (y m d : Z) : Z :=
  let y := if m <=? 2 then y - 1 else y in
  let era := y / 400 in
  let yoe := y - era * 400 in
  let mp := if 2 <? m then m - 3 else m + 9 in
  let doy := (153 * mp + 2) / 5 + d - 1 in
  let doe := yoe * 365 + yoe / 4 - yoe / 100 + doy in
  era * 146097 + doe - 719468.

Definition digit_val (a : ascii) : option Z :=
  if is_digit a then Some (Z.of_N (N_of_ascii a) - 48) else None.

Fixpoint digits_val (acc : Z) (l : list ascii) : option Z :=
  match l with
  | [] => Some acc
  | a :: r =>
      match digit_val a with
      | Some v => digits_val (10 * acc + v) r
      | None => None
      end
  end.

(** Text of the shape [YYYY-MM-DD], midnight UTC; any other text gives an
    [Invalid Date]. *)
Definition iso_parse (s : string) : option Z :=
  match list_ascii_of_string s with
  | [y1; y2; y3; y4; "-"; m1; m2; "-"; d1; d2]%char =>
      match digits_val 0 [y1; y2; y3; y4], digits_val 0 [m1; m2],
            digits_val 0 [d1; d2] with
      | Some y, Some m, Some d => Some (days_from_civil y m d * 86400000)
      | _, _, _ => None
      end
  | _ => None
  end.

(** The catalog published with the library. *)
Definition ecb_currencies : list string :=
  ["AUD"; "BRL"; "GBP"; "BGN"; "CAD"; "CNY"; "HRK"; "CZK"; "DKK"; "EUR";
   "HKD"; "HUF"; "ISK"; "IDR"; "INR"; "ILS"; "JPY"; "MYR"; "MXN"; "NZD";
   "NOK"; "PHP"; "PLN"; "RON"; "RUB"; "SGD"; "ZAR"; "KRW"; "SEK"; "CHF";
   "THB"; "TRY"; "USD"].

(** An environment for the examples: UTC, ISO dates, and a transport that
    answers every URL with [reply]. The identity stands in for [toFixed],
    which is not called where no decimal places are passed; the examples
    that pass some take the engine's [toFixed] ([with_toFixed]). *)
Definition sample_env (reply : promise response) : Collaborators :=
  {| parse_text := iso_parse;
     local_civil := utc_civil;
     date_text := fun t =>
       match t with
       | Some t => format_civil (utc_civil t)
       | None => "Invalid Date"
       end;
     currenciesList := ecb_currencies;
     global_fetch := fun _ => reply;
     toFixed := fun x _ => inr x;
     elem_text := fun _ => "" |}.

Definition ok_reply (data : json) : promise response :=
  inr {| status := 200; json_body := inr data |}.

(** A reply with status 404 and a body that is no JSON. *)
Definition not_found : promise response :=
  inr {| status := 404;
         json_body :=
           inl (ForeignError "SyntaxError"
                  "Unexpected token < in JSON at position 0") |}.

Definition env404 : Collaborators := sample_env not_found.

(** The fields after [exchangeRates().from(d1).to(d2)]. *)
Definition range_of (d1 d2 : date_input) : ExchangeRates :=
  {| _api_base_url := API_BASE_URL; _base := None; _symbols := None;
     _from := d1; _to := Some d2 |}.

(* ================================================================== *)
(** ** The URL as the specification describes it *)

(** Endpoint selection: [history] for a range, [latest] when [from] is
    ['latest'], the formatted date otherwise. *)
Definition endpoint (env : Collaborators) (t : ExchangeRates) : string :=
  match _to t with
  | Some _ => "history"
  | None =>
      if is_text (_from t) "latest" then "latest"
      else formatDate env (_from t)
  end.

(** The parameters in their fixed order, each only when present: the two
    dates and the base with key and value percent-encoded, the symbols with
    the comma-joined codes as they are. *)
Definition expected_params (env : Collaborators) (t : ExchangeRates)
    (h : heap) : list (string * string) :=
  match _to t with
  | Some to_ =>
      [(encodeURIComponent "start_at",
        encodeURIComponent (formatDate env (_from t)));
       (encodeURIComponent "end_at",
        encodeURIComponent (formatDate env to_))]
  | None => []
  end ++
  match _base t with
  | Some b =>
      if String.eqb b "" then []
      else [(encodeURIComponent "base", encodeURIComponent b)]
  | None => []
  end ++
  match _symbols t with
  | Some l => [("symbols", join "," (map (text_of env) (array_at h l)))]
  | None => []
  end.

(** [key=value] pairs joined by [&], after a [?] unless there is none. *)
Definition query_text (params : list (string * string)) : string :=
  match params with
  | [] => ""
  | _ => "?" +:+ join "&" (map (fun kv => fst kv +:+ "=" +:+ snd kv) params)
  end.

Definition at_1998 : ExchangeRates :=
  {| _api_base_url := API_BASE_URL; _base := None; _symbols := None;
     _from := RawText "1998-01-01"; _to := None |}.

Definition range_1998 : ExchangeRates :=
  {| _api_base_url := API_BASE_URL; _base := None; _symbols := None;
     _from := RawText "1998-01-01"; _to := Some (RawText "1998-06-01") |}.

(** The response of the conversion example: one rate. *)
Definition env_rate : Collaborators :=
  sample_env (ok_reply (JObj [("rates", JObj [("EUR", JNum 0.8338197282)])])).

(** The instance [convert] configures, and the heap it leaves: the new array
    [[toCurrency]] sits at the first free address. *)
Definition converter (h : heap) (f : string) (date : date_input)
  : ExchangeRates :=
  {| _api_base_url := API_BASE_URL; _base := Some (toUpperCase f);
     _symbols := Some (fresh (dom h)); _from := date; _to := None |}.

Definition converter_heap (h : heap) (t : string) : heap :=
  <[fresh (dom h) := [VStr (toUpperCase t)]]> h.

(** What a caller sees of the instance: its fields, with the array behind
    [_symbols]. *)
Definition fields (st : state)
  : string * date_input * option date_input * option string *
    option (list value) :=
  (_api_base_url (this st), _from (this st), _to (this st), _base (this st),
   match _symbols (this st) with
   | Some l => Some (array_at (mem st) l)
   | None => None
   end).

(** The caller assigns elements of an array of its own. *)
Definition caller_writes (l : loc) (a : list value) (st : state) : state :=
  with_mem st (<[l := a]> (mem st)).

(** A caller keeps one list of codes: it passes [['usd']] to [symbols], then
    edits the list to [['eur', 'xxx']] and passes it again. *)
Definition shared_list : state :=
  caller_writes 0%nat [VStr "eur"; VStr "xxx"]
    (fst (symbols env404 (VArr 0%nat)
            (exchangeRates {[ 0%nat := [VStr "usd"] ]}))).

(* ================================================================== *)
(** ** The averages as the specification describes them *)

(** A per-date entry of a fetched range: a bare number, or a mapping from
    currency code to number. *)
Inductive entry :=
| Scalar (n : float)
| Rates (m : list (string * float)).

Definition entry_json (e : entry) : json :=
  match e with
  | Scalar n => JNum n
  | Rates m => rates_object m
  end.

(** The fetched mapping from date to entry, as the value [fetch] resolves
    to. *)
Definition fetched (entries : list (string * entry)) : json :=
  JObj (map (fun d => (fst d, entry_json (snd d))) entries).




(** The arithmetic mean: the sum from zero, divided by the count. *)
Definition mean (values : list float) : float :=
  (fold_left PrimFloat.add values 0 / of_length (length values))%float.


(** A per-date map of a well-formed body: its keys are distinct, and none is
    a name every object inherits. *)
Fixpoint distinct (l : list string) : bool :=
  match l with
  | [] => true
  | k :: r => negb (existsb (String.eqb k) r) && distinct r
  end.

Definition code_map (m : list (string * float)) : bool :=
  distinct (obj_keys m) && forallb (fun k => negb (inherited k)) (obj_keys m).

(** The decimal places [avg] accepts. *)
Definition places_ok (decimalPlaces : places) : bool :=
  match decimalPlaces with
  | NoPlaces => true
  | IntPlaces d => 0 <=? d
  | BadPlaces => false
  end.

(** What [toFixed] makes of a mean: with no decimal places the mean itself,
    with [d] places the number [rnd] that the engine's [toFixed] gives for
    [d], which must accept every number at that [d]. *)
Definition rounds (env : Collaborators) (decimalPlaces : places)
    (rnd : float -> float) : Prop :=
  match decimalPlaces with
  | IntPlaces d => forall x, toFixed env x d = inr (rnd x)
  | _ => forall x, rnd x = x
  end.



(** What one property of a per-date map does to [mergedObj]. *)
Definition merge_step (mergedObj : list (string * list json))
    (kv : string * float) : list (string * list json) :=
  obj_set mergedObj (fst kv)
    (match obj_get mergedObj (fst kv) with Some arr => arr | None => [] end
     ++ [JNum (snd kv)]).






(** The same range answered with a map per date. *)
Definition map_entries : list (string * list (string * float)) :=
  [("2018-06-01", [("EUR", 0.8); ("USD", 1)]%float);
   ("2018-06-04", [("EUR", 0.9)]%float)].

Definition env_maps : Collaborators :=
  sample_env
    (ok_reply
       (JObj [("rates",
               fetched (map (fun d => (fst d, Rates (snd d))) map_entries))])).

(** *** [toFixed] as the engine computes it *)

(** [+x.toFixed(d)] for a finite [x] that is [m * 2^e] in absolute value.
    [toFixed] takes the integer [n] for which [n / 10^d] is nearest to the
    exact value of [x], the larger one of two equally near, and writes its
    digits with a point before the last [d]; unary [+] reads that text back
    as the double nearest to [n / 10^d]. From [10^21] on, [toFixed] writes
    the number as [String] does, and the number is read back as it was. The
    sign is written apart, and none is written for zero. *)
Definition fixed_digits (m : positive) (e d : Z) : Z :=
  if 0 <=? e then Zpos m * 2 ^ e * 10 ^ d
  else (2 * (Zpos m * 10 ^ d) + 2 ^ (- e)) / (2 * 2 ^ (- e)).

Definition at_least_1e21 (m : positive) (e : Z) : bool :=
  if 0 <=? e then 10 ^ 21 <=? Zpos m * 2 ^ e
  else 10 ^ 21 * 2 ^ (- e) <=? Zpos m.

Definition number_of_decimal (s : bool) (n d : Z) : float :=
  match n with
  | Zpos p =>
      FloatOps.SF2Prim
        (SpecFloat.SFdiv FloatOps.prec FloatOps.emax
           (SpecFloat.S754_finite s p 0)
           (SpecFloat.S754_finite false (Z.to_pos (10 ^ d)) 0))
  | _ => if s then neg_zero else zero
  end.

Definition fixed_value (x : float) (d : Z) : float :=
  match FloatOps.Prim2SF x with
  | SpecFloat.S754_finite s m e =>
      if at_least_1e21 m e then x
      else number_of_decimal s (fixed_digits m e d) d
  | SpecFloat.S754_zero _ => zero
  | _ => x
  end.

Definition toFixed_model (x : float) (d : Z) : js_error + float :=
  if (d <? 0) || (100 <? d) then
    inl (ForeignError "RangeError"
           "toFixed() digits argument must be between 0 and 100")
  else inr (fixed_value x d).

(** An environment with that [toFixed]. *)
Definition with_toFixed (env : Collaborators) : Collaborators :=
  {| parse_text := parse_text env;
     local_civil := local_civil env;
     date_text := date_text env;
     currenciesList := currenciesList env;
     global_fetch := global_fetch env;
     toFixed := toFixed_model;
     elem_text := elem_text env |}.

(* ================================================================== *)
(** ** Vocabulary of the further properties *)

(** The key and the value an [addParam] call stores. *)
Definition stored_key (c : string * string * bool) : string :=
  if snd c then encodeURIComponent (fst (fst c)) else fst (fst c).

Definition stored_val (c : string * string * bool) : string :=
  if snd c then encodeURIComponent (snd (fst c)) else snd (fst c).

(** A key that is an ordinary property name: not [__proto__] and no array
    index. *)
Definition plain_key (k : string) : bool :=
  negb (String.eqb k "__proto__") && negb (is_index k).

(** The keys in the order they first occur, given those seen before. *)
Fixpoint first_added (seen : list string) (keys : list string) : list string :=
  match keys with
  | [] => []
  | k :: r =>
      if existsb (String.eqb k) seen then first_added seen r
      else k :: first_added (k :: seen) r
  end.

(** The value of the last call that stores under [k]. *)
Definition last_value (k : string) (calls : list (string * string * bool))
  : option string :=
  fold_left (fun acc c => if String.eqb (stored_key c) k
                          then Some (stored_val c) else acc)
    calls None.

Definition three_calls : list (string * string * bool) :=
  [("b", "x y", true); ("a", "1", false); ("b", "z", false)].

(** A sequence of [addParam] calls on a builder: key, value and the
    [encode] flag of each call. *)
Definition add_all (calls : list (string * string * bool))
    (qs : QueryStringBuilder) : QueryStringBuilder :=
  fold_left (fun qs c => addParam qs (fst (fst c)) (snd (fst c)) (snd c))
    calls qs.

(** The characters of an encoded query: the unreserved ones, the [%] of an
    escape, and the separators [?], [=] and [&]. *)
Definition escaped_char (a : ascii) : bool :=
  uri_unreserved a || Ascii.eqb a "%".

Definition query_char (a : ascii) : bool :=
  escaped_char a || existsb (Ascii.eqb a) ["?"; "="; "&"]%char.

(** An element as [symbols] leaves it, whether it accepts it, and what it
    throws when it does not. *)
Definition upper_value (v : value) : value :=
  match v with
  | VStr s => VStr (toUpperCase s)
  | _ => v
  end.

Definition valid_code (env : Collaborators) (v : value) : bool :=
  match v with
  | VStr s => in_currenciesList env (toUpperCase s)
  | _ => false
  end.

Definition symbol_error (v : value) : js_error :=
  match v with
  | VStr s => UnknownCurrency (toUpperCase s)
  | _ => TypeError "Symbol currencies have to be strings"
  end.

(** The array as the loop of [symbols] leaves it, and the error it stops
    with: elements are upper-cased up to the first one that is rejected. *)
Fixpoint upper_scan (env : Collaborators) (arr : list value)
  : list value * option js_error :=
  match arr with
  | [] => ([], None)
  | v :: r =>
      if valid_code env v then
        (upper_value v :: fst (upper_scan env r), snd (upper_scan env r))
      else (v :: r, Some (symbol_error v))
  end.

(** The instance with another array behind [_symbols]. *)
Definition with_symbols (t : ExchangeRates) (l : loc) : ExchangeRates :=
  {| _api_base_url := _api_base_url t; _base := _base t;
     _symbols := Some l; _from := _from t; _to := _to t |}.

Definition with_base (t : ExchangeRates) (b : string) : ExchangeRates :=
  {| _api_base_url := _api_base_url t; _base := Some b;
     _symbols := _symbols t; _from := _from t; _to := _to t |}.

(** The error of a [push] on an inherited property. *)
Definition push_error : js_error :=
  TypeError "mergedObj[key].push is not a function".

(** A body whose [rates] holds one rate per date, all for the code [k]. *)
Definition one_code_rates (k : string) (dvs : list (string * float)) : json :=
  JObj (map (fun dv => (fst dv, rates_object [(k, snd dv)])) dvs).

(** Examples. *)
Definition at_soon : ExchangeRates :=
  {| _api_base_url := API_BASE_URL; _base := None; _symbols := None;
     _from := RawText "soon"; _to := None |}.

Definition two_codes : state :=
  exchangeRates {[ 0%nat := [VStr "usd"; VStr "Eur"] ]}.

Definition bad_second : state :=
  exchangeRates {[ 0%nat := [VStr "usd"; VNum 1; VStr "eur"] ]}.

Definition env_one_date : Collaborators :=
  sample_env
    (ok_reply
       (JObj [("rates",
               JObj [("2018-06-01",
                      rates_object [("EUR", 0.8); ("USD", 1)]%float)])])).

Definition env_eur_range : Collaborators :=
  sample_env
    (ok_reply
       (JObj [("rates",
               one_code_rates "EUR"
                 [("2018-06-01", 0.8); ("2018-06-04", 0.9)]%float)])).

Definition env_constructor : Collaborators :=
  sample_env
    (ok_reply
       (JObj [("rates",
               fetched
                 [("2018-06-01", Rates [("EUR", 0.8)]%float);
                  ("2018-06-04", Rates [("constructor", 1)]%float)])])).

(** An engine whose [toFixed] rejects every digit count. *)
Definition env_no_fixed : Collaborators :=
  {| parse_text := iso_parse;
     local_civil := utc_civil;
     date_text := fun _ => "";
     currenciesList := ecb_currencies;
     global_fetch := fun _ =>
       ok_reply
         (JObj [("rates",
                 fetched (map (fun d => (fst d, Rates (snd d))) map_entries))]);
     toFixed := fun _ _ =>
       inl (ForeignError "RangeError"
              "toFixed() digits argument must be between 0 and 100");
     elem_text := fun _ => "" |}.

(* ================================================================== *)
(** * Properties *)

(** ** Strings *)

Lemma append_assoc (a b c : string) : (a +:+ b) +:+ c = a +:+ (b +:+ c).
Proof. induction a as [|x a IH]; simpl; [reflexivity | now rewrite IH]. Qed.

Lemma str_forall_append p (a b : string) :
  str_forall p (a +:+ b) = str_forall p a && str_forall p b.
Proof.
  induction a as [|x a IH]; simpl; [reflexivity|].
  rewrite IH. now rewrite andb_assoc.
Qed.

Lemma str_forall_impl (p q : ascii -> bool) (s : string) :
  (forall a, p a = true -> q a = true) ->
  str_forall p s = true -> str_forall q s = true.
Proof.
  intros Hpq. induction s as [|x s IH]; simpl; [reflexivity|].
  intros [Hx Hs]%andb_prop. rewrite (Hpq _ Hx), (IH Hs). reflexivity.
Qed.

Lemma encode_unreserved (s : string) :
  str_forall uri_unreserved s = true -> encodeURIComponent s = s.
Proof.
  induction s as [|x s IH]; simpl; [reflexivity|].
  intros [Hx Hs]%andb_prop. rewrite Hx, (IH Hs). reflexivity.
Qed.

Lemma digit_unreserved (a : ascii) :
  is_digit a = true -> uri_unreserved a = true.
Proof. intros H. unfold uri_unreserved. rewrite H. reflexivity. Qed.

Lemma digits_of_uint (d : Decimal.uint) :
  str_forall is_digit (NilEmpty.string_of_uint d) = true.
Proof. induction d; simpl; auto. Qed.

Lemma digits_show_N (n : N) : str_forall is_digit (show_N n) = true.
Proof.
  unfold show_N, NilZero.string_of_uint.
  destruct (N.to_uint n) eqn:E; try reflexivity; rewrite <- E;
    apply digits_of_uint.
Qed.

Lemma digits_pad_zeros (fuel : nat) (s : string) :
  str_forall is_digit s = true -> str_forall is_digit (pad_zeros fuel s) = true.
Proof.
  revert s. induction fuel as [|fuel IH]; intros s Hs; simpl; [exact Hs|].
  apply IH. simpl. exact Hs.
Qed.

Lemma digits_addLeadingZeros (n : Z) (len : nat) :
  str_forall is_digit (addLeadingZeros n len) = true.
Proof. apply digits_pad_zeros, digits_show_N. Qed.

Lemma format_civil_unreserved (c : civil) :
  str_forall uri_unreserved (format_civil c) = true.
Proof.
  unfold format_civil. rewrite !str_forall_append.
  rewrite !(str_forall_impl _ _ _ digit_unreserved (digits_addLeadingZeros _ _)).
  reflexivity.
Qed.

Lemma encode_format_civil (c : civil) :
  encodeURIComponent (format_civil c) = format_civil c.
Proof. apply encode_unreserved, format_civil_unreserved. Qed.

(** ** Dates given to [at] and [from] *)

Lemma parseDate_returns_input env date : parseDate env date = inr date.
Proof. reflexivity. Qed.

(** C2: [at(date)] and [from(date)] do not fail on an input the date
    collaborator cannot parse: [isValid] is called on the parsed [Date], which
    never throws, its verdict is dropped, and the raw input is stored as
    [_from]. *)
Lemma at_from_accept_unparsable env date st :
  parse env date = None ->
  at_ env date st = (set_from st date, inr tt) /\
  from env date st = (set_from st date, inr tt).
Proof. intros _. split; reflexivity. Qed.

Lemma at_from_accept_unparsable_witness :
  at_ env404 (RawText "not a date") (exchangeRates ∅) =
    (set_from (exchangeRates ∅) (RawText "not a date"), inr tt) /\
  from env404 (RawText "not a date") (exchangeRates ∅) =
    (set_from (exchangeRates ∅) (RawText "not a date"), inr tt).
Proof.
  apply (at_from_accept_unparsable env404
           (RawText "not a date") (exchangeRates ∅)).
  reflexivity.
Defined.

(** ** Validation *)

(** C4: with [to] present and [from] equal to ['latest'], [_validate] throws
    the range error; the [url] getter and [fetch] throw it before a URL is
    built or the transport is called; the chain [.to(d)] on a new instance is
    such a configuration. *)
Lemma validate_range_needs_start env (t : ExchangeRates) to_ h :
  _to t = Some to_ ->
  _from t = RawText "latest" ->
  _validate env t = inl InvalidRangeRequest /\
  url env t h = inl InvalidRangeRequest /\
  fetch env t h = Throws InvalidRangeRequest /\
  forall d h',
    exists st, to env d (exchangeRates h') = (st, inr tt) /\
               _validate env (this st) = inl InvalidRangeRequest.
Proof.
  intros Hto Hfrom.
  assert (Hv : _validate env t = inl InvalidRangeRequest).
  { unfold _validate. rewrite Hto, Hfrom. reflexivity. }
  repeat split.
  - exact Hv.
  - unfold url. rewrite Hv. reflexivity.
  - unfold fetch. rewrite Hv. reflexivity.
  - intros d h'. eexists. split; reflexivity.
Qed.

Lemma validate_range_needs_start_witness :
  _validate env404 (range_of (RawText "latest") (RawText "2018-06-21")) =
    inl InvalidRangeRequest /\
  url env404 (range_of (RawText "latest") (RawText "2018-06-21")) ∅ =
    inl InvalidRangeRequest /\
  fetch env404 (range_of (RawText "latest") (RawText "2018-06-21")) ∅ =
    Throws InvalidRangeRequest /\
  forall d h',
    exists st, to env404 d (exchangeRates h') = (st, inr tt) /\
               _validate env404 (this st) = inl InvalidRangeRequest.
Proof.
  apply (validate_range_needs_start env404
           (range_of (RawText "latest") (RawText "2018-06-21"))
           (RawText "2018-06-21") ∅); reflexivity.
Defined.

(** C8 does not hold for a range whose start is after its end: the order of
    the dates is checked first. *)
Lemma validate_before_1999_other_error :
  getYear env404 (RawText "1998-06-01") = Some 1998 /\
  _validate env404 (range_of (RawText "1998-06-01") (RawText "1998-01-01")) =
    inl InvalidDateOrder /\
  InvalidDateOrder <> DateOutOfRange.
Proof. split; [reflexivity | split; [reflexivity | discriminate]]. Qed.

(** C8, amended: a [from] date whose year is before 1999 makes [_validate]
    throw: the out-of-range error when [to] is absent or [from] is not after
    it, and the order error, which comes first, when [to] is present and
    [from] is after it (in whatever year); a [from] date in 1999 or later
    never gets the out-of-range error. *)
Lemma validate_year_1999 env (t : ExchangeRates) time :
  _from t <> RawText "latest" ->
  parse env (_from t) = Some time ->
  (year (local_civil env time) < 1999 ->
   (forall to_, _to t = Some to_ -> isAfter env (_from t) to_ = false) ->
   _validate env t = inl DateOutOfRange) /\
  (forall to_,
     _to t = Some to_ -> isAfter env (_from t) to_ = true ->
     _validate env t = inl InvalidDateOrder) /\
  (1999 <= year (local_civil env time) ->
   _validate env t <> inl DateOutOfRange).
Proof.
  intros Hfrom Hparse.
  assert (Htext : is_text (_from t) "latest" = false).
  { destruct (_from t) as [s|]; [|reflexivity]. simpl.
    apply String.eqb_neq. congruence. }
  unfold _validate, getYear. rewrite Htext, Hparse. simpl. split; [|split].
  - intros Hy Hto. destruct (_to t) as [to_|].
    + rewrite (Hto to_ eq_refl).
      destruct (Z.ltb_spec (year (local_civil env time)) 1999); [reflexivity|lia].
    + destruct (Z.ltb_spec (year (local_civil env time)) 1999); [reflexivity|lia].
  - intros to_ Hto Hafter. rewrite Hto, Hafter. reflexivity.
  - intros Hy.
    destruct (Z.ltb_spec (year (local_civil env time)) 1999); [lia|].
    destruct (_to t) as [to_|]; [|discriminate].
    destruct (isAfter env (_from t) to_); discriminate.
Qed.

Lemma validate_year_1999_witness :
  _validate env404 at_1998 = inl DateOutOfRange.
Proof.
  refine (proj1 (validate_year_1999 env404 at_1998 883612800000 _ _) _ _).
  - discriminate.
  - reflexivity.
  - reflexivity.
  - intros to_ H. discriminate H.
Defined.

(** A range before 1999 given backwards: the order error. *)
Example range_1998_backwards :
  _validate env404 (range_of (RawText "1998-06-01") (RawText "1998-01-01")) =
    inl InvalidDateOrder /\
  _validate env404 (range_of (RawText "2018-06-01") (RawText "2018-01-01")) =
    inl InvalidDateOrder.
Proof. split; reflexivity. Qed.

(** The two examples of the specification. *)
Example from_1998_fails :
  from env404 (RawText "1998-01-01") (exchangeRates ∅) =
    ({| this := at_1998; mem := ∅ |}, inr tt) /\
  _validate env404 at_1998 = inl DateOutOfRange.
Proof. split; reflexivity. Qed.

Example from_1999_succeeds :
  _validate env404 (this (fst (from env404 (RawText "1999-01-01")
                                 (exchangeRates ∅)))) = inr tt.
Proof. reflexivity. Qed.

(** ** The collapse of a rates object *)

Lemma normalize_rates_object (m : list (string * float)) :
  normalize (rates_object m) =
    match m with
    | [kv] => JNum (snd kv)
    | _ => rates_object m
    end.
Proof.
  destruct m as [|[k v] [|kv' m]]; try reflexivity.
  unfold normalize. simpl. now rewrite String.eqb_refl.
Qed.

(** C7: on a mapping from currency code to number, [normalize] gives the
    single value when there is exactly one key and the mapping itself
    otherwise, and applying it twice is the same as applying it once. *)
Lemma normalize_collapse (m : list (string * float)) :
  normalize (rates_object m) =
    match m with
    | [kv] => JNum (snd kv)
    | _ => rates_object m
    end /\
  normalize (normalize (rates_object m)) = normalize (rates_object m).
Proof.
  split; [apply normalize_rates_object|].
  rewrite normalize_rates_object.
  destruct m as [|[k v] [|kv' m]]; reflexivity.
Qed.

(** ** Failures of the transport *)

(** C3 does not hold as stated: a response with status 404 does not reject
    with the API error itself. *)
Lemma fetch_bad_status_not_raw :
  fetch env404 new_ExchangeRates ∅ <> Rejects (ApiError 404).
Proof. vm_compute. discriminate. Qed.

(** C3, amended: whatever goes wrong after validation rejects with one
    wrapped error that carries only the message of its cause. For a status
    other than 200 the cause is the API error, whose message holds the status
    code; for a failed request or an unreadable body it is the error of the
    transport. *)
Lemma fetch_failures_are_wrapped env (t : ExchangeRates) h :
  _validate env t = inr tt ->
  (forall r, global_fetch env (_buildUrl env t h) = inr r ->
             status r <> 200 ->
             fetch env t h =
               Rejects (ExchangeRatesError
                          ("Couldn't fetch the exchange rate, " +:+
                           "API returned a bad response (HTTP " +:+
                           show_Z (status r) +:+ ")")) /\
             fetch env t h = Rejects (FetchFailed (message (ApiError (status r))))) /\
  (forall e, global_fetch env (_buildUrl env t h) = inl e ->
             fetch env t h = Rejects (FetchFailed (message e))) /\
  (forall r e, global_fetch env (_buildUrl env t h) = inr r ->
               status r = 200 ->
               json_body r = inl e ->
               fetch env t h = Rejects (FetchFailed (message e))).
Proof.
  intros Hv. unfold fetch. rewrite Hv. split; [|split].
  - intros r Hr Hs. rewrite Hr. simpl. unfold on_response.
    destruct (Z.eqb_spec (status r) 200); [contradiction|].
    split; reflexivity.
  - intros e He. rewrite He. reflexivity.
  - intros r e Hr Hs Hb. rewrite Hr. simpl. unfold on_response.
    rewrite Hs, Hb. reflexivity.
Qed.

Lemma fetch_failures_are_wrapped_witness :
  fetch env404 new_ExchangeRates ∅ =
    Rejects (FetchFailed (message (ApiError 404))).
Proof.
  refine (proj2 (proj1 (fetch_failures_are_wrapped env404 new_ExchangeRates ∅ _)
                   {| status := 404;
                      json_body :=
                        inl (ForeignError "SyntaxError"
                               "Unexpected token < in JSON at position 0") |}
                   _ _)).
  - reflexivity.
  - reflexivity.
  - discriminate.
Defined.

Example fetch_404 :
  fetch env404 new_ExchangeRates ∅ =
    Rejects (ExchangeRatesError
               "Couldn't fetch the exchange rate, API returned a bad response (HTTP 404)").
Proof. reflexivity. Qed.

(** ** The URL *)

Lemma buildUrl_spec env (t : ExchangeRates) h :
  _buildUrl env t h =
    _api_base_url t +:+ "/" +:+ endpoint env t +:+
    query_text (expected_params env t h).
Proof.
  unfold _buildUrl, endpoint, expected_params.
  destruct t as [api b sy fr to_]; simpl.
  destruct to_ as [to_|]; destruct b as [b|]; destruct sy as [l|];
    try destruct (String.eqb b ""); simpl;
    rewrite ?append_assoc; reflexivity.
Qed.

Lemma length_append (a b : string) :
  String.length (a +:+ b) = (String.length a + String.length b)%nat.
Proof. induction a as [|x a IH]; simpl; [reflexivity|now rewrite IH]. Qed.

Lemma join_nonempty (sep x : string) (l : list string) :
  String.length x <> 0%nat -> String.length (join sep (x :: l)) <> 0%nat.
Proof.
  intros Hx. destruct l as [|y l]; [exact Hx|].
  change (join sep (x :: y :: l)) with (x +:+ sep +:+ join sep (y :: l)).
  rewrite length_append. lia.
Qed.

Lemma insert_index_In (x y : N * string) (l : list (N * string)) :
  In y (insert_index x l) <-> y = x \/ In y l.
Proof.
  induction l as [|z l IH]; simpl; [intuition|].
  destruct (N.leb (fst x) (fst z)); simpl; [intuition|].
  rewrite IH. intuition.
Qed.

Lemma sorted_In (y : N * string) (l : list (N * string)) :
  In y (fold_right insert_index [] l) <-> In y l.
Proof.
  induction l as [|x l IH]; simpl; [tauto|].
  rewrite insert_index_In, IH. intuition.
Qed.

(** [Object.keys] lists every key, and only keys. *)
Lemma own_keys_In (k : string) (created : list string) :
  In k (own_keys created) <-> In k created.
Proof.
  unfold own_keys, is_index. rewrite in_app_iff, in_map_iff, filter_In. split.
  - intros [([n k'] & <- & Hin)|[Hin _]]; [|exact Hin].
    apply sorted_In, in_flat_map in Hin as (k0 & Hk0 & Hin).
    destruct (array_index k0); [|destruct Hin].
    destruct Hin as [[= _ ->]|[]]. exact Hk0.
  - intros Hin. destruct (array_index k) as [n|] eqn:E.
    + left. exists (n, k). split; [reflexivity|].
      apply sorted_In, in_flat_map. exists k. rewrite E.
      split; [exact Hin|now left].
    + right. now split.
Qed.

(** Without array indices among them, the keys come in creation order. *)
Lemma own_keys_plain (created : list string) :
  forallb (fun k => negb (is_index k)) created = true ->
  own_keys created = created.
Proof.
  intros Hall. unfold own_keys.
  assert (Hnone : flat_map (fun k => match array_index k with
                                     | Some n => [(n, k)]
                                     | None => []
                                     end) created = []).
  { induction created as [|k ks IH]; [reflexivity|].
    simpl in *. apply andb_prop in Hall as [Hk Hks]. unfold is_index in Hk.
    destruct (array_index k); [discriminate|]. now apply IH. }
  rewrite Hnone. simpl.
  induction created as [|k ks IH]; [reflexivity|].
  simpl in *. apply andb_prop in Hall as [Hk Hks]. rewrite Hk. f_equal.
  apply IH; [exact Hks|].
  unfold is_index in Hk. now destruct (array_index k).
Qed.

Lemma build_nonempty (obj : QueryStringBuilder) :
  obj <> [] -> exists text, _build obj = "?" +:+ text.
Proof.
  destruct obj as [|[k v] obj]; [congruence|]. intros _. unfold _build.
  match goal with
  | |- context [Nat.eqb (String.length ?s) 0] =>
      destruct (Nat.eqb_spec (String.length s) 0) as [Hlen|_];
      [|eexists; reflexivity]
  end.
  exfalso. revert Hlen.
  destruct (own_keys (obj_keys ((k, v) :: obj))) as [|k0 ks] eqn:E.
  - assert (Hin : In k (own_keys (obj_keys ((k, v) :: obj))))
      by (apply own_keys_In; now left).
    rewrite E in Hin. destruct Hin.
  - cbn [map]. apply join_nonempty. rewrite !length_append. simpl. lia.
Qed.

Lemma addParam_nonempty (qs : QueryStringBuilder) (key val : string)
    (encode : bool) :
  (if encode then encodeURIComponent key else key) <> "__proto__" ->
  addParam qs key val encode <> [].
Proof.
  intros Hkey%String.eqb_neq. unfold addParam. rewrite Hkey.
  destruct qs as [|[k v] qs]; simpl; [discriminate|].
  destruct (String.eqb k _); discriminate.
Qed.

Lemma addParam_proto (qs : QueryStringBuilder) (key val : string)
    (encode : bool) :
  (if encode then encodeURIComponent key else key) = "__proto__" ->
  addParam qs key val encode = qs.
Proof. intros Hkey. unfold addParam. now rewrite Hkey. Qed.

(** C6: the URL is the base, the endpoint and the query text of the
    parameters present, in their order: [start_at], [end_at] and [base] with
    key and value percent-encoded, [symbols] with its comma-joined codes left
    as they are; the query text starts with [?] when there is a parameter and
    is empty when there is none. So does the text of the builder: it is
    empty exactly when the builder holds no parameter, it starts with [?]
    otherwise, and every [addParam] makes the builder hold one, but for the
    key [__proto__], whose assignment stores nothing. *)
Lemma buildUrl_query env (t : ExchangeRates) h :
  _buildUrl env t h =
    _api_base_url t +:+ "/" +:+ endpoint env t +:+
    query_text (expected_params env t h) /\
  query_text [] = "" /\
  (forall kv params, exists text, query_text (kv :: params) = "?" +:+ text) /\
  _build new_QueryStringBuilder = "" /\
  (forall obj, obj <> [] <-> exists text, _build obj = "?" +:+ text) /\
  (forall qs key val (encode : bool),
     (if encode then encodeURIComponent key else key) <> "__proto__" ->
     exists text, _build (addParam qs key val encode) = "?" +:+ text) /\
  (forall qs key val (encode : bool),
     (if encode then encodeURIComponent key else key) = "__proto__" ->
     _build (addParam qs key val encode) = _build qs).
Proof.
  split; [apply buildUrl_spec|].
  split; [reflexivity|].
  split; [intros kv params; eexists; reflexivity|].
  split; [reflexivity|].
  split.
  { intros obj. split; [apply build_nonempty|].
    intros [text Ht] ->. discriminate Ht. }
  split.
  - intros qs key val encode Hkey. now apply build_nonempty, addParam_nonempty.
  - intros qs key val encode Hkey. now rewrite addParam_proto.
Qed.

Lemma buildUrl_query_witness :
  (exists text,
     _build (addParam new_QueryStringBuilder "base" "USD" true) =
       "?" +:+ text) /\
  _build (addParam (addParam new_QueryStringBuilder "base" "USD" true)
            "__proto__" "x" true) =
    _build (addParam new_QueryStringBuilder "base" "USD" true).
Proof.
  pose proof (buildUrl_query env404 new_ExchangeRates ∅)
    as (_ & _ & _ & _ & _ & Hadd & Hproto).
  split.
  - apply Hadd. vm_compute. discriminate.
  - apply Hproto. reflexivity.
Defined.

(** The builder on its own: a [__proto__] parameter leaves no trace, and
    parameters named by array indices come first, in numeric order. *)
Example build_proto_and_indices :
  _build (addParam new_QueryStringBuilder "__proto__" "x" true) = "" /\
  _build (addParam (addParam (addParam new_QueryStringBuilder "b" "x" true)
                      "2" "y" true) "1" "z" true) = "?1=z&2=y&b=x" /\
  _build (addParam (addParam new_QueryStringBuilder "b" "x" true)
            "01" "y" true) = "?b=x&01=y".
Proof. repeat split; reflexivity. Qed.

(** A code with a comma or a space in it shows what is encoded and what is
    not: the base is, the symbols are not. *)
Example encoding_of_params :
  _buildUrl env404
    {| _api_base_url := API_BASE_URL; _base := Some "A B"; _symbols := Some 0%nat;
       _from := RawText "latest"; _to := None |}
    {[ 0%nat := [VStr "A B"; VStr "C,D"] ]} =
  "https://api.ratesapi.io/latest?base=A%20B&symbols=A B,C,D".
Proof. reflexivity. Qed.

(** C5 does not hold for a range before 1999, although its dates are in
    order. *)
Lemma range_before_1999_rejected :
  parse env404 (RawText "1998-01-01") = Some 883612800000 /\
  parse env404 (RawText "1998-06-01") = Some 896659200000 /\
  883612800000 <= 896659200000 /\
  chain (from env404 (RawText "1998-01-01")) (to env404 (RawText "1998-06-01"))
    (exchangeRates ∅) = ({| this := range_1998; mem := ∅ |}, inr tt) /\
  url env404 range_1998 ∅ = inl DateOutOfRange.
Proof. repeat (split; [reflexivity || lia|]). reflexivity. Qed.

(** C5, amended: for dates in order whose start is in 1999 or later, the
    chain [.from(d1).to(d2)] validates and its URL is [/history] with
    [start_at] and [end_at] set to the two dates as [YYYY-MM-DD]; for a start
    after the end, validation throws the order error. *)
Lemma range_url env d1 d2 t1 t2 h :
  d1 <> RawText "latest" ->
  parse env d1 = Some t1 ->
  parse env d2 = Some t2 ->
  chain (from env d1) (to env d2) (exchangeRates h) =
    ({| this := range_of d1 d2; mem := h |}, inr tt) /\
  (t1 <= t2 -> 1999 <= year (local_civil env t1) ->
   url env (range_of d1 d2) h =
     inr (API_BASE_URL +:+ "/history?start_at=" +:+
          format_civil (local_civil env t1) +:+ "&end_at=" +:+
          format_civil (local_civil env t2))) /\
  (t2 < t1 -> _validate env (range_of d1 d2) = inl InvalidDateOrder).
Proof.
  intros Hd1 H1 H2.
  assert (Htext : is_text d1 "latest" = false).
  { destruct d1 as [s|]; [|reflexivity]. simpl.
    apply String.eqb_neq. congruence. }
  split; [reflexivity|]. split.
  - intros Hle Hy. unfold url, _validate, isAfter, getYear. simpl.
    rewrite Htext, H1, H2. simpl.
    destruct (Z.ltb_spec t2 t1); [lia|].
    destruct (Z.ltb_spec (year (local_civil env t1)) 1999); [lia|]. simpl.
    rewrite buildUrl_spec. unfold endpoint, expected_params, formatDate.
    cbn [range_of _to _from _base _symbols _api_base_url].
    rewrite H1, H2, !encode_format_civil.
    generalize (format_civil (local_civil env t1)).
    generalize (format_civil (local_civil env t2)).
    intros f2 f1. reflexivity.
  - intros Hlt. unfold _validate, isAfter. simpl.
    rewrite Htext, H1, H2.
    destruct (Z.ltb_spec t2 t1); [reflexivity|lia].
Qed.


Lemma range_url_witness :
  url env404 (range_of (RawText "2018-06-01") (RawText "2018-06-21")) ∅ =
    inr "https://api.ratesapi.io/history?start_at=2018-06-01&end_at=2018-06-21".
Proof.
  refine (proj1 (proj2 (range_url env404 (RawText "2018-06-01")
                          (RawText "2018-06-21") 1527811200000 1529539200000
                          ∅ _ _ _)) _ _).
  - discriminate.
  - reflexivity.
  - reflexivity.
  - lia.
  - vm_compute. discriminate.
Defined.

(** The URL of the documentation: a range with a base and two symbols. *)
Example url_of_readme :
  (let st := fst (chain (from env404 (RawText "2018-01-01"))
                    (chain (to env404 (RawText "2018-09-01"))
                       (chain (base env404 (VStr "usd"))
                          (symbols env404 (VArr 0%nat))))
                    (exchangeRates {[ 0%nat := [VStr "EUR"; VStr "gbp"] ]})) in
   url env404 (this st) (mem st)) =
  inr "https://api.ratesapi.io/history?start_at=2018-01-01&end_at=2018-09-01&base=USD&symbols=EUR,GBP".
Proof. vm_compute. reflexivity. Qed.

(** ** convert *)

Lemma validateCurrency_ok env (c : string) :
  in_currenciesList env c = true -> _validateCurrency env c = inr tt.
Proof. intros H. unfold _validateCurrency. rewrite H. reflexivity. Qed.

Lemma date_or_latest env (date : date_input) st :
  (if is_text date "latest" then latest else at_ env date) st =
    (set_from st date, inr tt).
Proof.
  destruct date as [s|]; simpl; [|reflexivity].
  destruct (String.eqb_spec s "latest") as [->|]; reflexivity.
Qed.

Lemma symbols_of_text env (t : string) st :
  in_currenciesList env (toUpperCase t) = true ->
  symbols env (VStr t) st =
    ({| this :=
          {| _api_base_url := _api_base_url (this st);
             _base := _base (this st);
             _symbols := Some (fresh (dom (mem st)));
             _from := _from (this st); _to := _to (this st) |};
        mem := <[fresh (dom (mem st)) := [VStr (toUpperCase t)]]> (mem st) |},
     inr tt).
Proof.
  intros Ht. unfold symbols, array_at. rewrite lookup_insert_eq. simpl.
  unfold array_at. rewrite lookup_insert_eq. simpl.
  rewrite (validateCurrency_ok _ _ Ht), insert_insert_eq. reflexivity.
Qed.

(** C9: [convert] throws a [TypeError] when [amount] is not a number and
    when [toCurrency] is an array; otherwise it configures a new instance
    with the date, the base and the one symbol, and when the fetch of that
    instance gives the scalar rate [r] it resolves to [r * amount]. *)
Lemma convert_spec env h (amount fromCurrency toCurrency : value)
    (date : date_input) :
  ((forall a, amount <> VNum a) ->
   convert env h amount fromCurrency toCurrency date =
     Throws (TypeError "The 'amount' parameter has to be a number")) /\
  (forall a l,
     amount = VNum a -> toCurrency = VArr l ->
     convert env h amount fromCurrency toCurrency date =
       Throws (TypeError
                 "Cannot convert to multiple currencies at the same time")) /\
  (forall a f t r,
     amount = VNum a -> fromCurrency = VStr f -> toCurrency = VStr t ->
     in_currenciesList env (toUpperCase f) = true ->
     in_currenciesList env (toUpperCase t) = true ->
     fetch env (converter h f date) (converter_heap h t) =
       Resolves (JNum r) ->
     convert env h amount fromCurrency toCurrency date =
       Resolves (r * a)%float).
Proof.
  split; [|split].
  - intros Hn. destruct amount as [s|a|l|]; try reflexivity.
    exfalso. exact (Hn a eq_refl).
  - intros a l -> ->. reflexivity.
  - intros a f t r -> -> -> Hf Ht Hfetch.
    unfold convert, chain. rewrite date_or_latest.
    unfold base. rewrite (validateCurrency_ok _ _ Hf).
    rewrite (symbols_of_text _ _ _ Ht). simpl.
    unfold converter, converter_heap in Hfetch. rewrite Hfetch. reflexivity.
Qed.

Lemma convert_spec_witness :
  convert env_rate ∅ (VNum 2000) (VStr "USD") (VStr "EUR")
    (RawText "2018-01-01") = Resolves 1667.6394564000002%float.
Proof.
  refine (proj2 (proj2 (convert_spec env_rate ∅ (VNum 2000) (VStr "USD")
                          (VStr "EUR") (RawText "2018-01-01")))
            2000%float "USD" "EUR" 0.8338197282%float _ _ _ _ _ _);
    reflexivity.
Defined.

(** ** Configuration calls that throw *)

Lemma symbols_loop_elsewhere env (fuel i : nat) (l l' : loc) (h h' : heap) r :
  symbols_loop env fuel i l h = (h', r) ->
  l' <> l ->
  h' !! l' = h !! l'.
Proof.
  revert i h. induction fuel as [|fuel IH]; intros i h Hloop Hne; simpl in Hloop.
  - now inversion Hloop.
  - destruct (array_at h l !! i) as [[s|n|a|]|]; try now inversion Hloop.
    destruct (_validateCurrency env (toUpperCase s)); [now inversion Hloop|].
    rewrite (IH _ _ Hloop Hne). now apply lookup_insert_ne.
Qed.

Lemma allocated_not_fresh (h : heap) (l : loc) :
  is_Some (h !! l) -> l <> fresh (dom h).
Proof.
  intros Hs ->. apply (is_fresh (dom h)). now apply elem_of_dom.
Qed.

Lemma symbols_throws env (v : value) st st' e :
  symbols env v st = (st', inl e) ->
  this st' = this st /\
  forall l, v <> VArr l -> is_Some (mem st !! l) -> mem st' !! l = mem st !! l.
Proof.
  unfold symbols. intros H.
  destruct v as [s|n|a|].
  all: match type of H with
       | context [symbols_loop ?e ?f ?i ?l ?h] =>
           destruct (symbols_loop e f i l h) as [h1 [e1|[]]] eqn:Hloop
       end; inversion H; subst; clear H; simpl.
  all: split; [reflexivity|]; intros l Hl Hsome.
  3: { apply (symbols_loop_elsewhere _ _ _ _ l _ _ _ Hloop). congruence. }
  all: pose proof (allocated_not_fresh _ _ Hsome) as Hfresh;
    rewrite (symbols_loop_elsewhere _ _ _ _ l _ _ _ Hloop Hfresh);
    apply lookup_insert_ne; congruence.
Qed.

Lemma symbols_loop_scan env (l : loc) (suf pre : list value) (h : heap) :
  h !! l = Some (pre ++ suf) ->
  symbols_loop env (length suf) (length pre) l h =
    (<[l := pre ++ fst (upper_scan env suf)]> h,
     match snd (upper_scan env suf) with
     | Some e => inl e
     | None => inr tt
     end).
Proof.
  revert pre h. induction suf as [|v suf IH]; intros pre h Hl.
  - simpl. rewrite insert_id; [reflexivity|exact Hl].
  - cbn [length symbols_loop]. unfold array_at at 1. rewrite Hl.
    rewrite list_lookup_middle by reflexivity.
    assert (Hsame : <[l := pre ++ v :: suf]> h = h) by now apply insert_id.
    destruct v as [s|n|a|]; cbn [upper_scan valid_code];
      try (cbn [fst snd symbol_error]; now rewrite Hsame).
    unfold _validateCurrency.
    destruct (in_currenciesList env (toUpperCase s)) eqn:E;
      cbn [negb fst snd symbol_error upper_value]; [|now rewrite Hsame].
    unfold array_at. rewrite Hl.
    replace (<[length pre := VStr (toUpperCase s)]> (pre ++ VStr s :: suf))
      with ((pre ++ [VStr (toUpperCase s)]) ++ suf).
    2:{ rewrite <- app_assoc. simpl. symmetry.
        now rewrite insert_app_r_alt, Nat.sub_diag by lia. }
    replace (S (length pre)) with (length (pre ++ [VStr (toUpperCase s)]))
      by (rewrite length_app; simpl; lia).
    rewrite IH by apply lookup_insert_eq.
    rewrite insert_insert_eq, <- app_assoc. reflexivity.
Qed.

Lemma symbols_array env (l : loc) (arr : list value) st :
  mem st !! l = Some arr ->
  symbols env (VArr l) st =
    match snd (upper_scan env arr) with
    | Some e => (with_mem st (<[l := fst (upper_scan env arr)]> (mem st)), inl e)
    | None =>
        ({| this := with_symbols (this st) l;
            mem := <[l := fst (upper_scan env arr)]> (mem st) |}, inr tt)
    end.
Proof.
  intros Hl. unfold symbols, array_at. rewrite Hl.
  pose proof (symbols_loop_scan env l arr [] (mem st) Hl) as Hloop.
  cbn [length app] in Hloop. rewrite Hloop.
  destruct (snd (upper_scan env arr)); reflexivity.
Qed.

Lemma upper_scan_all_valid env (arr : list value) :
  forallb (valid_code env) arr = true ->
  upper_scan env arr = (map upper_value arr, None).
Proof.
  induction arr as [|v arr IH]; [reflexivity|]. simpl.
  intros [Hv Harr]%andb_prop. now rewrite Hv, (IH Harr).
Qed.

Lemma upper_scan_stops env (pre suf : list value) (v : value) :
  forallb (valid_code env) pre = true ->
  valid_code env v = false ->
  upper_scan env (pre ++ v :: suf) =
    (map upper_value pre ++ v :: suf, Some (symbol_error v)).
Proof.
  intros Hpre Hv. induction pre as [|x pre IH]; simpl.
  - now rewrite Hv.
  - simpl in Hpre. apply andb_prop in Hpre as [Hx Hpre].
    now rewrite Hx, (IH Hpre).
Qed.

Lemma upper_scan_success env (arr : list value) :
  snd (upper_scan env arr) = None -> forallb (valid_code env) arr = true.
Proof.
  induction arr as [|v arr IH]; [reflexivity|]. simpl.
  destruct (valid_code env v); [exact IH|discriminate].
Qed.

Lemma upper_scan_failure env (arr : list value) (e : js_error) :
  snd (upper_scan env arr) = Some e ->
  exists pre x suf,
    arr = pre ++ x :: suf /\
    forallb (valid_code env) pre = true /\
    valid_code env x = false /\
    e = symbol_error x /\
    fst (upper_scan env arr) = map upper_value pre ++ x :: suf.
Proof.
  induction arr as [|v arr IH]; [discriminate|]. simpl.
  destruct (valid_code env v) eqn:Ev; simpl.
  - intros H. destruct (IH H) as (pre & x & suf & -> & Hpre & Hx & He & Hfst).
    exists (v :: pre), x, suf. simpl. rewrite Ev, Hpre, Hfst. auto.
  - intros [= <-]. exists [], v, arr. auto.
Qed.

(** C10 does not hold when the array passed to [symbols] is the one
    [_symbols] already refers to: the call throws on ['xxx'] after it has
    upper-cased ['eur'] in place. *)
Lemma symbols_throw_changes_shared_array :
  fields shared_list =
    (API_BASE_URL, RawText "latest", None, None,
     Some [VStr "eur"; VStr "xxx"]) /\
  snd (symbols env404 (VArr 0%nat) shared_list) =
    inl (UnknownCurrency "XXX") /\
  fields (fst (symbols env404 (VArr 0%nat) shared_list)) =
    (API_BASE_URL, RawText "latest", None, None,
     Some [VStr "EUR"; VStr "xxx"]) /\
  fields (fst (symbols env404 (VArr 0%nat) shared_list)) <> fields shared_list.
Proof.
  split; [reflexivity|]. split; [reflexivity|]. split; [reflexivity|].
  vm_compute. discriminate.
Qed.

(** C10, amended: when [base] throws nothing changes; when [symbols] throws,
    every field of the instance holds what it held before and every array but
    the one passed in is untouched, so that what the instance shows is the
    same unless its [_symbols] is that very array. The array passed in, its
    texts being ASCII, is left with the elements before the offending one
    upper-cased in place and the rest as they were; the error is the one of
    that element. *)
Lemma setters_throw_keep_fields env (v : value) st st' e :
  (base env v st = (st', inl e) -> st' = st) /\
  (symbols env v st = (st', inl e) ->
   this st' = this st /\
   (forall l, v <> VArr l -> is_Some (mem st !! l) ->
              mem st' !! l = mem st !! l) /\
   ((forall l, _symbols (this st) = Some l ->
               v <> VArr l /\ is_Some (mem st !! l)) ->
    fields st' = fields st) /\
   (forall l arr,
      v = VArr l -> mem st !! l = Some arr ->
      forallb ascii_value arr = true ->
      exists pre x suf,
        arr = pre ++ x :: suf /\
        forallb (valid_code env) pre = true /\
        valid_code env x = false /\
        e = symbol_error x /\
        mem st' !! l = Some (map upper_value pre ++ x :: suf))).
Proof.
  split.
  - unfold base. intros H. destruct v as [s|n|a|]; try now inversion H.
    destruct (_validateCurrency env (toUpperCase s)); now inversion H.
  - intros H. destruct (symbols_throws _ _ _ _ _ H) as [Hthis Hmem].
    split; [exact Hthis|]. split; [exact Hmem|]. split.
    + intros Hsym. unfold fields. rewrite Hthis.
      destruct (_symbols (this st)) as [l|] eqn:El; [|reflexivity].
      destruct (Hsym l eq_refl) as [Hne Hsome].
      unfold array_at. rewrite (Hmem l Hne Hsome). reflexivity.
    + intros l arr -> Harr _. rewrite (symbols_array _ _ _ _ Harr) in H.
      destruct (snd (upper_scan env arr)) as [e'|] eqn:Es; [|discriminate].
      injection H as <- <-.
      destruct (upper_scan_failure _ _ _ Es)
        as (pre & x & suf & -> & Hpre & Hx & He & Hfst).
      exists pre, x, suf. rewrite Hfst. simpl. rewrite lookup_insert_eq. auto.
Qed.

Lemma setters_throw_keep_fields_witness :
  fields (fst (symbols env404 (VStr "xxx") shared_list)) = fields shared_list /\
  exists pre x suf,
    [VStr "eur"; VStr "xxx"] = pre ++ x :: suf /\
    forallb (valid_code env404) pre = true /\
    valid_code env404 x = false /\
    UnknownCurrency "XXX" = symbol_error x /\
    mem (fst (symbols env404 (VArr 0%nat) shared_list)) !! 0%nat =
      Some (map upper_value pre ++ x :: suf).
Proof.
  split.
  - refine (proj1 (proj2 (proj2 (proj2 (setters_throw_keep_fields env404
                                          (VStr "xxx") shared_list
                                          (fst (symbols env404 (VStr "xxx")
                                                  shared_list))
                                          (UnknownCurrency "XXX")) _))) _).
    + reflexivity.
    + intros l Hl. injection Hl as <-. split; [discriminate|].
      exists [VStr "eur"; VStr "xxx"]. reflexivity.
  - refine (proj2 (proj2 (proj2 (proj2 (setters_throw_keep_fields env404
                                          (VArr 0%nat) shared_list
                                          (fst (symbols env404 (VArr 0%nat)
                                                  shared_list))
                                          (UnknownCurrency "XXX")) _)))
              0%nat [VStr "eur"; VStr "xxx"] _ _ _); reflexivity.
Defined.

(** ** Objects *)

Section ObjFacts.
Context {V : Type}.
Implicit Types (o : list (string * V)) (k : string) (v : V).

Lemma obj_get_set_eq o k v : obj_get (obj_set o k v) k = Some v.
Proof.
  induction o as [|[k' v'] o IH]; simpl.
  - now rewrite String.eqb_refl.
  - destruct (String.eqb k' k) eqn:E; simpl; rewrite E; [reflexivity|exact IH].
Qed.

Lemma obj_get_set_ne o k k' v :
  k <> k' -> obj_get (obj_set o k v) k' = obj_get o k'.
Proof.
  intros Hne. induction o as [|[k0 v0] o IH]; simpl.
  - apply String.eqb_neq in Hne. now rewrite Hne.
  - destruct (String.eqb_spec k0 k) as [->|Hk]; simpl.
    + apply String.eqb_neq in Hne. now rewrite Hne.
    + now rewrite IH.
Qed.

Lemma obj_set_set o k v w : obj_set (obj_set o k v) k w = obj_set o k w.
Proof.
  induction o as [|[k' v'] o IH]; simpl.
  - now rewrite String.eqb_refl.
  - destruct (String.eqb k' k) eqn:E; simpl; rewrite E; [reflexivity|].
    now rewrite IH.
Qed.

Lemma obj_get_None o k : obj_get o k = None <-> ~ In k (obj_keys o).
Proof.
  induction o as [|[k' v'] o IH]; simpl; [tauto|].
  destruct (String.eqb_spec k' k) as [->|Hk].
  - split; [discriminate|]. intros H. exfalso. apply H. now left.
  - rewrite IH. split; [intros H [?|?]; [congruence|tauto] | tauto].
Qed.

Lemma obj_set_new o k v : obj_get o k = None -> obj_set o k v = o ++ [(k, v)].
Proof.
  induction o as [|[k' v'] o IH]; simpl; [reflexivity|].
  destruct (String.eqb k' k); [discriminate|]. intros H. now rewrite IH.
Qed.

Lemma obj_keys_set_old o k v :
  obj_get o k <> None -> obj_keys (obj_set o k v) = obj_keys o.
Proof.
  induction o as [|[k' v'] o IH]; simpl; [congruence|].
  destruct (String.eqb k' k); [reflexivity|]. intros H. simpl.
  f_equal. exact (IH H).
Qed.

Lemma obj_keys_set_NoDup o k v :
  List.NoDup (obj_keys o) -> List.NoDup (obj_keys (obj_set o k v)).
Proof.
  intros Hnd. destruct (obj_get o k) eqn:E.
  - rewrite obj_keys_set_old; [exact Hnd | congruence].
  - rewrite (obj_set_new _ _ _ E). unfold obj_keys. rewrite map_app. simpl.
    apply obj_get_None in E. apply List.NoDup_app.
    + exact Hnd.
    + constructor; [intros []|constructor].
    + intros a Ha [<-|[]]. exact (E Ha).
Qed.

Lemma obj_get_In o k v :
  List.NoDup (obj_keys o) -> In (k, v) o -> obj_get o k = Some v.
Proof.
  induction o as [|[k' v'] o IH]; simpl; [tauto|].
  intros Hnd [Heq|Hin].
  - injection Heq as -> ->. now rewrite String.eqb_refl.
  - inversion Hnd as [|? ? Hk Hnd']; subst.
    destruct (String.eqb_spec k' k) as [->|_]; [|now apply IH].
    exfalso. apply Hk. change k with (fst (k, v)). now apply in_map.
Qed.

End ObjFacts.

Lemma obj_get_map {V W} (f : V -> W) (o : list (string * V)) (k : string) :
  obj_get (map (fun kv => (fst kv, f (snd kv))) o) k =
    option_map f (obj_get o k).
Proof.
  induction o as [|[k' v'] o IH]; simpl; [reflexivity|].
  destruct (String.eqb k' k); [reflexivity|exact IH].
Qed.

Lemma obj_keys_map {V W} (f : V -> W) (o : list (string * V)) :
  obj_keys (map (fun kv => (fst kv, f (snd kv))) o) = obj_keys o.
Proof. unfold obj_keys. rewrite map_map. reflexivity. Qed.

Lemma distinct_NoDup (l : list string) : distinct l = true -> List.NoDup l.
Proof.
  induction l as [|k l IH]; simpl; [constructor|].
  intros [Hk Hl]%andb_prop. constructor; [|now apply IH].
  intros Hin. apply negb_true_iff in Hk.
  assert (existsb (String.eqb k) l = true); [|congruence].
  apply existsb_exists. exists k. split; [exact Hin|apply String.eqb_refl].
Qed.

(** ** Loops *)

Lemma forEach_map {A B S} (g : A -> B) (f : S -> B -> js_error + S)
    (l : list A) (s : S) :
  forEach (map g l) f s = forEach l (fun s a => f s (g a)) s.
Proof.
  revert s. induction l as [|a l IH]; intros s; simpl; [reflexivity|].
  destruct (f s (g a)); [reflexivity|apply IH].
Qed.

Lemma forEach_pure {A S} (f : S -> A -> js_error + S) (g : S -> A -> S)
    (l : list A) (s : S) :
  (forall s a, In a l -> f s a = inr (g s a)) ->
  forEach l f s = inr (fold_left g l s).
Proof.
  revert s. induction l as [|a l IH]; intros s Hfg; simpl; [reflexivity|].
  rewrite (Hfg s a (or_introl eq_refl)). apply IH.
  intros s' a' Hin. apply Hfg. now right.
Qed.

(** ** The merge of the per-date maps *)

Lemma merge_push_step (mergedObj : list (string * list json)) kv :
  inherited (fst kv) = false ->
  merge_push mergedObj (fst kv) (JNum (snd kv)) =
    inr (merge_step mergedObj kv).
Proof.
  intros Hk. unfold merge_push, merge_step.
  destruct (obj_get mergedObj (fst kv)) as [arr|].
  - now rewrite obj_set_set.
  - rewrite Hk. now rewrite obj_set_set.
Qed.

Lemma code_map_facts (m : list (string * float)) :
  code_map m = true ->
  List.NoDup (obj_keys m) /\ forall kv, In kv m -> inherited (fst kv) = false.
Proof.
  unfold code_map. intros [Hd Hi]%andb_prop. split.
  - now apply distinct_NoDup.
  - intros kv Hin. rewrite forallb_forall in Hi.
    apply negb_true_iff, Hi. unfold obj_keys. now apply in_map.
Qed.

Lemma merge_obj_map (mergedObj : list (string * list json))
    (m : list (string * float)) :
  code_map m = true ->
  merge_obj mergedObj (rates_object m) = inr (fold_left merge_step m mergedObj).
Proof.
  intros [Hnd Hinh]%code_map_facts.
  unfold merge_obj, rates_object. simpl. rewrite obj_keys_map.
  unfold obj_keys. rewrite forEach_map. apply forEach_pure.
  intros s [k v] Hin. cbn [prop fst].
  rewrite obj_get_map, (obj_get_In _ _ _ Hnd Hin). simpl.
  apply (merge_push_step s (k, v)). exact (Hinh _ Hin).
Qed.

Lemma merge_all (dates : list (string * list (string * float)))
    (mergedObj : list (string * list json)) :
  forallb (fun d => code_map (snd d)) dates = true ->
  forEach (Object_values (fetched (map (fun d => (fst d, Rates (snd d))) dates)))
    merge_obj mergedObj =
    inr (fold_left merge_step (flat_map snd dates) mergedObj).
Proof.
  unfold fetched, Object_values, obj_values. rewrite !map_map. simpl.
  revert mergedObj. induction dates as [|[d m] dates IH]; intros M Hwf; simpl.
  - reflexivity.
  - simpl in Hwf. apply andb_prop in Hwf as [Hm Hrest].
    rewrite (merge_obj_map _ _ Hm), fold_left_app. now apply IH.
Qed.



(** ** The averages *)

Lemma fold_obj_set_fresh {V W} (g : V -> W) (M : list (string * V))
    (A : list (string * W)) :
  List.NoDup (obj_keys A ++ obj_keys M) ->
  fold_left (fun A kv => obj_set A (fst kv) (g (snd kv))) M A =
    A ++ map (fun kv => (fst kv, g (snd kv))) M.
Proof.
  revert A. induction M as [|[k v] M IH]; intros A Hnd; simpl.
  - now rewrite app_nil_r.
  - assert (Hk : obj_get A k = None).
    { apply obj_get_None. intros Hin.
      apply NoDup_remove_2 in Hnd. apply Hnd, in_app_iff. now left. }
    rewrite (obj_set_new _ _ _ Hk), IH.
    + now rewrite <- app_assoc.
    + unfold obj_keys in *. rewrite map_app, <- app_assoc. exact Hnd.
Qed.

Lemma avg_rates_map env (decimalPlaces : places) (rnd : float -> float)
    (mergedObj : list (string * list json)) :
  List.NoDup (obj_keys mergedObj) ->
  (forall x, round_rate env decimalPlaces x = inr (rnd x)) ->
  avg_rates env decimalPlaces mergedObj (obj_keys mergedObj) =
    inr (map (fun kv => (fst kv, rnd (avgRate (snd kv)))) mergedObj).
Proof.
  intros Hnd Hrnd. unfold avg_rates, obj_keys at 1. rewrite forEach_map.
  rewrite (forEach_pure _
             (fun A kv => obj_set A (fst kv) (rnd (avgRate (snd kv))))).
  - now rewrite (fold_obj_set_fresh (fun vs => rnd (avgRate vs))).
  - intros A [k vs] Hin. simpl.
    now rewrite (obj_get_In _ _ _ Hnd Hin), Hrnd.
Qed.

Lemma fold_plus_numbers (vs : list float) (a : float) :
  fold_left plus (map JNum vs) (Some a) = Some (fold_left PrimFloat.add vs a).
Proof.
  revert a. induction vs as [|v vs IH]; intros a; simpl; [reflexivity|apply IH].
Qed.

Lemma avgRate_mean (vs : list float) : avgRate (map JNum vs) = mean vs.
Proof.
  unfold avgRate, mean. now rewrite fold_plus_numbers, length_map.
Qed.









Lemma rounds_round_rate env (decimalPlaces : places) (rnd : float -> float) :
  rounds env decimalPlaces rnd ->
  forall x, round_rate env decimalPlaces x = inr (rnd x).
Proof.
  destruct decimalPlaces as [|d|]; simpl; intros H x;
    [now rewrite H | apply H | now rewrite H].
Qed.





(** The example of the documentation: with one decimal place the mean of
    0.8 and 0.9, which is 0.8500000000000001, comes back as 0.9. *)
Example avg_two_dates_one_place :
  avg (with_toFixed env_maps)
    (range_of (RawText "2018-06-01") (RawText "2018-06-04")) ∅ (IntPlaces 1) =
  Resolves (JObj [("EUR", JNum 0.9); ("USD", JNum 1)]) /\
  toFixed_model 0.8500000000000001 1 = inr 0.9%float /\
  toFixed_model 1.005 2 = inr 1%float /\
  toFixed_model 2.5 0 = inr 3%float /\
  toFixed_model (-0.0001) 2 = inr (-0)%float.
Proof. repeat split; vm_compute; reflexivity. Qed.

(** The averages of the two-date example, with the doubles the additions and
    the division give. *)
Example avg_two_dates :
  avg env_maps (range_of (RawText "2018-06-01") (RawText "2018-06-04")) ∅
    NoPlaces =
  Resolves (JObj [("EUR", JNum 0.8500000000000001); ("USD", JNum 1)]) /\
  mean [0.8; 0.9]%float = 0.8500000000000001%float.
Proof. split; reflexivity. Qed.

(** A range answered with a single date: [fetch] has collapsed the mapping
    to that date's map, and [avg] finds no per-date map in it. *)
Example avg_single_date :
  avg (sample_env
         (ok_reply
            (JObj [("rates",
                    JObj [("2018-06-01",
                           JObj [("EUR", JNum 0.8); ("USD", JNum 1)])])])))
    (range_of (RawText "2018-06-01") (RawText "2018-06-01")) ∅ NoPlaces =
  Resolves (JObj []).
Proof. reflexivity. Qed.

(* ================================================================== *)
(** * Further properties of the code *)

(** ** utils.js *)

Lemma endsWith_slash_snoc (s : string) : endsWith_slash (s +:+ "/") = true.
Proof.
  induction s as [|a s IH]; [reflexivity|].
  destruct s as [|b s]; [reflexivity|]. exact IH.
Qed.

Lemma drop_last_snoc (s : string) : drop_last (s +:+ "/") = s.
Proof.
  induction s as [|a s IH]; [reflexivity|].
  destruct s as [|b s]; [reflexivity|].
  change (String a (drop_last (String b s +:+ "/")) = String a (String b s)).
  now rewrite IH.
Qed.

(** X1: [untrailingSlashIt] removes one trailing slash and no more: a text
    ending in [/] loses that character, so a text ending in two slashes
    keeps one. *)
Lemma untrailingSlashIt_one_slash (s : string) :
  untrailingSlashIt (s +:+ "/") = s /\
  untrailingSlashIt (s +:+ "//") = s +:+ "/".
Proof.
  assert (H : forall x, untrailingSlashIt (x +:+ "/") = x).
  { intros x. unfold untrailingSlashIt.
    now rewrite endsWith_slash_snoc, drop_last_snoc. }
  split; [apply H|].
  change "//" with ("/" +:+ "/"). rewrite <- append_assoc. apply H.
Qed.

(** X2: a base URL given with or without its trailing slash configures the
    same instance, hence the same request URLs. *)
Lemma setApiBaseUrl_trailing_slash (s : string) st :
  endsWith_slash s = false ->
  setApiBaseUrl (s +:+ "/") st = setApiBaseUrl s st /\
  forall env,
    _buildUrl env (this (fst (setApiBaseUrl (s +:+ "/") st))) (mem st) =
    _buildUrl env (this (fst (setApiBaseUrl s st))) (mem st).
Proof.
  intros Hs.
  assert (H : setApiBaseUrl (s +:+ "/") st = setApiBaseUrl s st).
  { unfold setApiBaseUrl, untrailingSlashIt.
    now rewrite endsWith_slash_snoc, drop_last_snoc, Hs. }
  split; [exact H|]. intros env. now rewrite H.
Qed.

Lemma setApiBaseUrl_trailing_slash_witness :
  setApiBaseUrl ("https://api.exchangerate.host" +:+ "/") (exchangeRates ∅) =
    setApiBaseUrl "https://api.exchangerate.host" (exchangeRates ∅) /\
  forall env,
    _buildUrl env
      (this (fst (setApiBaseUrl ("https://api.exchangerate.host" +:+ "/")
                    (exchangeRates ∅)))) (mem (exchangeRates ∅)) =
    _buildUrl env
      (this (fst (setApiBaseUrl "https://api.exchangerate.host"
                    (exchangeRates ∅)))) (mem (exchangeRates ∅)).
Proof.
  apply (setApiBaseUrl_trailing_slash "https://api.exchangerate.host"
           (exchangeRates ∅)).
  reflexivity.
Defined.

(** ** query-string-builder.js *)

Lemma obj_get_value_In {V} (o : list (string * V)) k v :
  obj_get o k = Some v -> In (k, v) o.
Proof.
  induction o as [|[k' v'] o IH]; simpl; [discriminate|].
  destruct (String.eqb_spec k' k) as [->|_]; [|auto].
  intros [= ->]. now left.
Qed.

Lemma obj_set_Forall {V} (P : string * V -> Prop) (o : list (string * V)) k v :
  Forall P o -> P (k, v) -> Forall P (obj_set o k v).
Proof.
  intros Ho Hkv. induction Ho as [|[k' v'] o Hx Ho IH]; simpl.
  - now constructor.
  - destruct (String.eqb_spec k' k) as [->|_]; now constructor.
Qed.

Lemma addParam_stored (qs : QueryStringBuilder) (c : string * string * bool) :
  addParam qs (fst (fst c)) (snd (fst c)) (snd c) =
    if String.eqb (stored_key c) "__proto__" then qs
    else obj_set qs (stored_key c) (stored_val c).
Proof. reflexivity. Qed.

Lemma add_all_distinct_keys (calls : list (string * string * bool))
    (qs : QueryStringBuilder) :
  List.NoDup (obj_keys qs) -> List.NoDup (obj_keys (add_all calls qs)).
Proof.
  revert qs. induction calls as [|c calls IH]; intros qs Hqs; [exact Hqs|].
  apply IH. rewrite addParam_stored.
  destruct (String.eqb _ _); [exact Hqs|now apply obj_keys_set_NoDup].
Qed.

Lemma add_all_Forall (P : string * string -> Prop)
    (calls : list (string * string * bool)) (qs : QueryStringBuilder) :
  Forall (fun c => P (stored_key c, stored_val c)) calls ->
  Forall P qs -> Forall P (add_all calls qs).
Proof.
  intros Hcalls. revert qs.
  induction Hcalls as [|c calls Hc Hcalls IH]; intros qs Hqs; [exact Hqs|].
  apply IH. rewrite addParam_stored.
  destruct (String.eqb _ _); [exact Hqs|now apply obj_set_Forall].
Qed.

Lemma build_query_text (obj : QueryStringBuilder) :
  List.NoDup (obj_keys obj) ->
  forallb (fun k => negb (is_index k)) (obj_keys obj) = true ->
  _build obj = query_text obj.
Proof.
  intros Hnd Hplain. unfold _build. rewrite (own_keys_plain _ Hplain).
  unfold obj_keys. rewrite map_map.
  rewrite (map_ext_in _ (fun kv => fst kv +:+ "=" +:+ snd kv)).
  - destruct obj as [|[k v] obj]; [reflexivity|].
    match goal with
    | |- context [Nat.eqb (String.length ?s) 0] =>
        destruct (Nat.eqb_spec (String.length s) 0) as [Hlen|_];
        [|reflexivity]
    end.
    exfalso. revert Hlen. cbn [map fst snd].
    apply join_nonempty. rewrite !length_append. simpl. lia.
  - intros [k v] Hin. cbn [fst snd]. now rewrite (obj_get_In _ _ _ Hnd Hin).
Qed.

Lemma add_all_nonempty (calls : list (string * string * bool))
    (qs : QueryStringBuilder) :
  qs <> [] -> add_all calls qs <> [].
Proof.
  revert qs. induction calls as [|c calls IH]; intros qs Hqs; [exact Hqs|].
  apply IH. rewrite addParam_stored.
  destruct (String.eqb _ _); [exact Hqs|].
  destruct qs as [|[k v] qs]; [congruence|]. simpl.
  destruct (String.eqb k _); discriminate.
Qed.

Lemma existsb_eqb_In (k : string) (l : list string) :
  existsb (String.eqb k) l = true <-> In k l.
Proof.
  rewrite existsb_exists. split.
  - intros (x & Hin & ->%String.eqb_eq). exact Hin.
  - intros Hin. exists k. split; [exact Hin|apply String.eqb_refl].
Qed.

Lemma first_added_ext (seen seen' keys : list string) :
  (forall k, In k seen <-> In k seen') ->
  first_added seen keys = first_added seen' keys.
Proof.
  revert seen seen'. induction keys as [|k keys IH]; intros seen seen' Hs;
    [reflexivity|].
  simpl.
  assert (He : existsb (String.eqb k) seen = existsb (String.eqb k) seen').
  { apply eq_true_iff_eq. now rewrite !existsb_eqb_In. }
  rewrite He. destruct (existsb (String.eqb k) seen').
  - now apply IH.
  - f_equal. apply IH. intros k'. simpl. now rewrite Hs.
Qed.

Lemma plain_not_proto (k : string) :
  plain_key k = true -> String.eqb k "__proto__" = false.
Proof.
  unfold plain_key. intros [H _]%andb_prop. now apply negb_true_iff in H.
Qed.

Lemma add_all_keys (calls : list (string * string * bool))
    (qs : QueryStringBuilder) :
  Forall (fun c => plain_key (stored_key c) = true) calls ->
  obj_keys (add_all calls qs) =
    obj_keys qs ++ first_added (obj_keys qs) (map stored_key calls).
Proof.
  intros Hcalls. revert qs.
  induction Hcalls as [|c calls Hc Hcalls IH]; intros qs.
  - simpl. now rewrite app_nil_r.
  - cbn [add_all fold_left map first_added].
    change (fold_left _ calls ?q) with (add_all calls q).
    rewrite addParam_stored, (plain_not_proto _ Hc), IH.
    destruct (existsb (String.eqb (stored_key c)) (obj_keys qs)) eqn:E.
    + apply existsb_eqb_In in E.
      rewrite obj_keys_set_old; [reflexivity|].
      intros Hnone. apply obj_get_None in Hnone. contradiction.
    + assert (Hnone : obj_get qs (stored_key c) = None).
      { apply obj_get_None. intros Hin. apply existsb_eqb_In in Hin.
        congruence. }
      rewrite (obj_set_new _ _ _ Hnone). unfold obj_keys.
      rewrite map_app, <- app_assoc. cbn [map fst app]. do 2 f_equal.
      apply first_added_ext. intros k. rewrite in_app_iff. simpl. tauto.
Qed.

Lemma add_all_lookup (calls : list (string * string * bool))
    (qs : QueryStringBuilder) (k : string) :
  Forall (fun c => plain_key (stored_key c) = true) calls ->
  obj_get (add_all calls qs) k =
    fold_left (fun acc c => if String.eqb (stored_key c) k
                            then Some (stored_val c) else acc)
      calls (obj_get qs k).
Proof.
  intros Hcalls. revert qs.
  induction Hcalls as [|c calls Hc Hcalls IH]; intros qs; [reflexivity|].
  cbn [add_all fold_left].
  change (fold_left _ calls (addParam ?q ?a ?b ?e))
    with (add_all calls (addParam q a b e)).
  rewrite addParam_stored, (plain_not_proto _ Hc), IH. f_equal.
  destruct (String.eqb_spec (stored_key c) k) as [<-|Hne].
  - apply obj_get_set_eq.
  - now apply obj_get_set_ne.
Qed.

(** X4: on a new builder, [addParam] calls whose stored keys are ordinary
    names (not [__proto__], no array index) leave the keys in the order they
    were first added, each with the value of the last call that named it, and
    the text is the pairs [key=value] in that order, joined by [&] after a
    [?]; it is empty exactly when no call was made. *)
Lemma build_after_calls (calls : list (string * string * bool)) :
  Forall (fun c => plain_key (stored_key c) = true) calls ->
  obj_keys (add_all calls new_QueryStringBuilder) =
    first_added [] (map stored_key calls) /\
  (forall k,
     obj_get (add_all calls new_QueryStringBuilder) k = last_value k calls) /\
  _build (add_all calls new_QueryStringBuilder) =
    query_text (add_all calls new_QueryStringBuilder) /\
  (_build (add_all calls new_QueryStringBuilder) = "" <-> calls = []).
Proof.
  intros Hcalls. split; [exact (add_all_keys calls [] Hcalls)|].
  split; [intros k; exact (add_all_lookup calls [] k Hcalls)|].
  split.
  - apply build_query_text; [apply add_all_distinct_keys; constructor|].
    assert (Hplain : Forall (fun kv : string * string =>
                               plain_key (fst kv) = true)
                       (add_all calls new_QueryStringBuilder)).
    { apply add_all_Forall; [exact Hcalls|constructor]. }
    apply forallb_forall. intros k Hk.
    unfold obj_keys in Hk. apply in_map_iff in Hk as (kv & <- & Hin).
    rewrite List.Forall_forall in Hplain. specialize (Hplain _ Hin).
    unfold plain_key in Hplain. now apply andb_prop in Hplain as [_ H].
  - split; [|now intros ->].
    destruct calls as [|c calls]; [reflexivity|]. intros Hempty. exfalso.
    assert (Hne : add_all (c :: calls) new_QueryStringBuilder <> []).
    { apply (add_all_nonempty calls). rewrite addParam_stored.
      inversion Hcalls as [|? ? Hc _]; subst.
      rewrite (plain_not_proto _ Hc). discriminate. }
    destruct (build_nonempty _ Hne) as [text Ht].
    rewrite Ht in Hempty. discriminate.
Qed.

Lemma build_after_calls_witness :
  obj_keys (add_all three_calls new_QueryStringBuilder) =
    first_added [] (map stored_key three_calls) /\
  (forall k,
     obj_get (add_all three_calls new_QueryStringBuilder) k =
       last_value k three_calls) /\
  _build (add_all three_calls new_QueryStringBuilder) =
    query_text (add_all three_calls new_QueryStringBuilder) /\
  (_build (add_all three_calls new_QueryStringBuilder) = "" <->
   three_calls = []).
Proof.
  apply (build_after_calls three_calls).
  repeat constructor.
Defined.

(** The second value given for [b] replaces the first, where [b] was. *)
Example build_three_calls :
  _build (add_all three_calls new_QueryStringBuilder) = "?b=z&a=1" /\
  first_added [] (map stored_key three_calls) = ["b"; "a"] /\
  last_value "b" three_calls = Some "z".
Proof. repeat split; reflexivity. Qed.

Lemma hex_digit_unreserved (a : ascii) :
  uri_unreserved (hex_digit (N_of_ascii a / 16)) = true /\
  uri_unreserved (hex_digit (N_of_ascii a mod 16)) = true.
Proof. destruct a as [[] [] [] [] [] [] [] []]; split; reflexivity. Qed.

Lemma encode_escaped (s : string) :
  str_forall escaped_char (encodeURIComponent s) = true.
Proof.
  induction s as [|a s IH]; [reflexivity|]. simpl.
  rewrite str_forall_append, IH, andb_true_r.
  destruct (uri_unreserved a) eqn:E.
  - simpl. unfold escaped_char. now rewrite E.
  - destruct (hex_digit_unreserved a) as [Hh Hl].
    unfold pct_encode. cbn [str_forall]. unfold escaped_char.
    now rewrite Hh, Hl.
Qed.

Lemma str_forall_join p (sep : string) (l : list string) :
  str_forall p sep = true ->
  Forall (fun x => str_forall p x = true) l ->
  str_forall p (join sep l) = true.
Proof.
  intros Hsep Hl. induction Hl as [|x l Hx Hl IH]; [reflexivity|].
  destruct l as [|y l]; [exact Hx|].
  change (join sep (x :: y :: l)) with (x +:+ sep +:+ join sep (y :: l)).
  now rewrite !str_forall_append, Hx, Hsep, IH.
Qed.

Lemma escaped_query_char (s : string) :
  str_forall escaped_char s = true -> str_forall query_char s = true.
Proof.
  apply str_forall_impl. intros a Ha. unfold query_char. now rewrite Ha.
Qed.

(** X5: when every parameter is added with encoding on, the text of the
    builder holds only unreserved characters, [%] escapes and the separators
    [?], [=] and [&], whatever the keys and values were. *)
Lemma build_encoded_is_clean (params : list (string * string)) :
  str_forall query_char
    (_build (add_all (map (fun kv => (kv, true)) params)
               new_QueryStringBuilder)) = true.
Proof.
  set (clean := fun kv : string * string =>
                  str_forall escaped_char (fst kv) = true /\
                  str_forall escaped_char (snd kv) = true).
  assert (Hinv : forall qs,
             Forall clean qs ->
             Forall clean (add_all (map (fun kv => (kv, true)) params) qs)).
  { intros qs Hqs. apply add_all_Forall; [|exact Hqs].
    apply List.Forall_forall. intros c Hc.
    apply in_map_iff in Hc as (kv & <- & _). split; apply encode_escaped. }
  specialize (Hinv new_QueryStringBuilder (List.Forall_nil _)).
  revert Hinv.
  generalize (add_all (map (fun kv => (kv, true)) params)
                new_QueryStringBuilder).
  intros obj Hobj. unfold _build.
  match goal with
  | |- context [Nat.eqb (String.length ?s) 0] =>
      destruct (Nat.eqb (String.length s) 0); [reflexivity|]
  end.
  change (str_forall query_char ("?" +:+ ?x)) with (str_forall query_char x).
  apply str_forall_join; [reflexivity|].
  apply List.Forall_forall. intros x Hx.
  apply in_map_iff in Hx as (key & <- & Hkey).
  apply (proj1 (own_keys_In _ _)) in Hkey.
  unfold obj_keys in Hkey. apply in_map_iff in Hkey as ([k v] & <- & Hin).
  rewrite List.Forall_forall in Hobj. rewrite !str_forall_append.
  destruct (Hobj _ Hin) as [Hk _]. cbn [fst snd] in *.
  rewrite (escaped_query_char _ Hk). simpl.
  destruct (obj_get obj k) as [v'|] eqn:E; [|reflexivity].
  apply obj_get_value_In in E. destruct (Hobj _ E) as [_ Hv].
  now apply escaped_query_char.
Qed.

(** ** Dates in the URL *)

Lemma length_pad_zeros (fuel : nat) (s : string) :
  String.length (pad_zeros fuel s) = (fuel + String.length s)%nat.
Proof.
  revert s. induction fuel as [|fuel IH]; intros s; [reflexivity|].
  simpl. rewrite IH. simpl. lia.
Qed.

Lemma show_N_width :
  forallb (fun n => Nat.leb (String.length (show_N (N.of_nat n))) 4)
    (seq 0 (Z.to_nat 10000)) = true.
Proof. vm_compute. reflexivity. Qed.

Lemma length_addLeadingZeros (n : Z) (len : nat) :
  0 <= n <= 9999 ->
  (if Z.leb n 99 then 2 <= len else 4 <= len)%nat ->
  String.length (addLeadingZeros n len) = len.
Proof.
  intros Hn Hlen. unfold addLeadingZeros. rewrite length_pad_zeros.
  assert (Hw : (String.length (show_N (Z.to_N (Z.abs n))) <=
                if Z.leb n 99 then 2 else 4)%nat).
  { pose proof show_N_width as H. rewrite forallb_forall in H.
    specialize (H (Z.to_nat n)).
    assert (Hin : In (Z.to_nat n) (seq 0 (Z.to_nat 10000))) by (apply List.in_seq; lia).
    apply H, Nat.leb_le in Hin.
    replace (N.of_nat (Z.to_nat n)) with (Z.to_N (Z.abs n)) in Hin by lia.
    destruct (Z.leb_spec n 99); [|exact Hin].
    assert (H99 : forallb
                    (fun n => Nat.leb (String.length (show_N (N.of_nat n))) 2)
                    (seq 0 (Z.to_nat 100)) = true) by (vm_compute; reflexivity).
    rewrite forallb_forall in H99. specialize (H99 (Z.to_nat n)).
    assert (Hin' : In (Z.to_nat n) (seq 0 (Z.to_nat 100))) by (apply List.in_seq; lia).
    apply H99, Nat.leb_le in Hin'.
    now replace (N.of_nat (Z.to_nat n)) with (Z.to_N (Z.abs n)) in Hin' by lia. }
  destruct (Z.leb n 99); lia.
Qed.

(** X6: the text [formatDate] gives for a date that parses is left as it is
    by [encodeURIComponent], so dates show verbatim in the query; for a year
    of at most four digits it is ten characters long. *)
Lemma formatDate_verbatim env (d : date_input) time :
  parse env d = Some time ->
  encodeURIComponent (formatDate env d) = formatDate env d /\
  (0 <= year (local_civil env time) <= 9999 ->
   1 <= month (local_civil env time) <= 12 ->
   1 <= day (local_civil env time) <= 31 ->
   String.length (formatDate env d) = 10%nat).
Proof.
  intros Hp. unfold formatDate. rewrite Hp. split.
  - apply encode_format_civil.
  - intros Hy Hm Hd. unfold format_civil. rewrite !length_append.
    rewrite (length_addLeadingZeros (year _) 4), (length_addLeadingZeros (month _) 2),
      (length_addLeadingZeros (day _) 2); try lia; try reflexivity.
    + destruct (Z.leb_spec (day (local_civil env time)) 99); lia.
    + destruct (Z.leb_spec (month (local_civil env time)) 99); lia.
    + destruct (Z.leb (year (local_civil env time)) 99); lia.
Qed.

Lemma formatDate_verbatim_witness :
  encodeURIComponent (formatDate env404 (RawText "2018-06-01")) =
    formatDate env404 (RawText "2018-06-01") /\
  String.length (formatDate env404 (RawText "2018-06-01")) = 10%nat.
Proof.
  pose proof (formatDate_verbatim env404 (RawText "2018-06-01") 1527811200000
                eq_refl) as [He Hl].
  split; [exact He|]. apply Hl; vm_compute; split; discriminate.
Defined.

Lemma not_latest (d : date_input) :
  d <> RawText "latest" -> is_text d "latest" = false.
Proof.
  intros Hd. destruct d as [s|]; [|reflexivity]. simpl.
  apply String.eqb_neq. congruence.
Qed.

(** X7: validation never rejects a date that does not parse: the
    comparisons with [NaN] are false, so [_validate] passes whatever [to]
    is, the date is formatted as [Invalid Date], and the URL of a single-date
    request has that text as its path. *)
Lemma unparsable_date_passes_validation env (t : ExchangeRates) h :
  _from t <> RawText "latest" ->
  parse env (_from t) = None ->
  _validate env t = inr tt /\
  formatDate env (_from t) = "Invalid Date" /\
  (_to t = None ->
   url env t h =
     inr (_api_base_url t +:+ "/Invalid Date" +:+
          query_text (expected_params env t h))).
Proof.
  intros Hfrom Hparse. apply not_latest in Hfrom.
  assert (Hv : _validate env t = inr tt).
  { unfold _validate, isAfter, getYear. rewrite Hfrom, Hparse.
    destruct (_to t); reflexivity. }
  assert (Hf : formatDate env (_from t) = "Invalid Date").
  { unfold formatDate. now rewrite Hparse. }
  split; [exact Hv|]. split; [exact Hf|].
  intros Hto. unfold url. rewrite Hv, buildUrl_spec.
  unfold endpoint. now rewrite Hto, Hfrom, Hf.
Qed.

Lemma unparsable_date_passes_validation_witness :
  url env404 at_soon ∅ = inr "https://api.ratesapi.io/Invalid Date".
Proof.
  refine (proj2 (proj2 (unparsable_date_passes_validation env404 at_soon ∅
                          _ _)) _).
  - discriminate.
  - reflexivity.
  - reflexivity.
Defined.

(** X8: after [latest()], a request without [to] passes validation whatever
    date was set before, and its URL is [/latest] followed by the [base] and
    [symbols] parameters only. *)
Lemma latest_url env st :
  _to (this st) = None ->
  url env (this (fst (latest st))) (mem (fst (latest st))) =
    inr (_api_base_url (this st) +:+ "/latest" +:+
         query_text (expected_params env (this st) (mem st))).
Proof.
  intros Hto. unfold url, latest. cbn [fst this mem set_from with_this].
  unfold _validate. cbn [_to _from]. rewrite Hto. simpl.
  rewrite buildUrl_spec. unfold endpoint, expected_params.
  cbn [_to _from _base _symbols _api_base_url]. now rewrite Hto.
Qed.

Lemma latest_url_witness :
  url env404 (this (fst (latest {| this := at_1998; mem := ∅ |})))
    (mem (fst (latest {| this := at_1998; mem := ∅ |}))) =
    inr (_api_base_url at_1998 +:+ "/latest" +:+
         query_text (expected_params env404 at_1998 ∅)).
Proof.
  apply (latest_url env404 {| this := at_1998; mem := ∅ |}). reflexivity.
Defined.

(** X9: [at(d)] with a date in 1999 or later, on an instance without [to],
    gives the URL whose path is that date as [YYYY-MM-DD], followed by the
    [base] and [symbols] parameters. *)
Lemma dated_url env st (d : date_input) time :
  d <> RawText "latest" ->
  parse env d = Some time ->
  1999 <= year (local_civil env time) ->
  _to (this st) = None ->
  url env (this (fst (at_ env d st))) (mem (fst (at_ env d st))) =
    inr (_api_base_url (this st) +:+ "/" +:+
         format_civil (local_civil env time) +:+
         query_text (expected_params env (this st) (mem st))).
Proof.
  intros Hd Hp Hy Hto. apply not_latest in Hd.
  unfold url, at_. cbn [parseDate isValid fst this mem set_from with_this].
  unfold _validate, getYear. cbn [_to _from]. rewrite Hto, Hd, Hp. simpl.
  destruct (Z.ltb_spec (year (local_civil env time)) 1999); [lia|]. simpl.
  rewrite buildUrl_spec. unfold endpoint, expected_params, formatDate.
  cbn [_to _from _base _symbols _api_base_url]. now rewrite Hto, Hd, Hp.
Qed.

Lemma dated_url_witness :
  url env404 (this (fst (at_ env404 (RawText "2018-03-26") (exchangeRates ∅))))
    (mem (fst (at_ env404 (RawText "2018-03-26") (exchangeRates ∅)))) =
    inr (_api_base_url (this (exchangeRates ∅)) +:+ "/" +:+
         format_civil (local_civil env404 1522022400000) +:+
         query_text (expected_params env404 (this (exchangeRates ∅))
                       (mem (exchangeRates ∅)))).
Proof.
  apply (dated_url env404 (exchangeRates ∅) (RawText "2018-03-26")
           1522022400000).
  - discriminate.
  - reflexivity.
  - vm_compute. discriminate.
  - reflexivity.
Defined.

Example url_of_a_date :
  url env404 (this (fst (at_ env404 (RawText "2018-03-26") (exchangeRates ∅))))
    ∅ = inr "https://api.ratesapi.io/2018-03-26".
Proof. reflexivity. Qed.

(** ** Currency codes *)

Lemma upper_ascii_not_lower (a : ascii) : is_lower (upper_ascii a) = false.
Proof. destruct a as [[] [] [] [] [] [] [] []]; reflexivity. Qed.

Lemma upper_ascii_idem (a : ascii) : upper_ascii (upper_ascii a) = upper_ascii a.
Proof. destruct a as [[] [] [] [] [] [] [] []]; reflexivity. Qed.

Lemma toUpperCase_idem (s : string) : toUpperCase (toUpperCase s) = toUpperCase s.
Proof.
  induction s as [|a s IH]; [reflexivity|].
  simpl. now rewrite upper_ascii_idem, IH.
Qed.

Lemma toUpperCase_no_lower (s : string) :
  str_forall (fun a => negb (is_lower a)) (toUpperCase s) = true.
Proof.
  induction s as [|a s IH]; [reflexivity|].
  simpl. now rewrite upper_ascii_not_lower, IH.
Qed.

Lemma inherited_has_lower (k : string) :
  inherited k = true -> str_forall (fun a => negb (is_lower a)) k = false.
Proof.
  unfold inherited. intros H.
  apply existsb_exists in H as (x & Hin & Heq).
  apply String.eqb_eq in Heq. subst x. simpl in Hin.
  repeat (destruct Hin as [<-|Hin]; [reflexivity|]). destruct Hin.
Qed.

Lemma upper_not_inherited (s : string) : inherited (toUpperCase s) = false.
Proof.
  destruct (inherited (toUpperCase s)) eqn:E; [|reflexivity].
  apply inherited_has_lower in E. now rewrite toUpperCase_no_lower in E.
Qed.

Lemma in_catalog_upper env (s : string) :
  in_currenciesList env (toUpperCase s) = true <->
  In (toUpperCase s) (currenciesList env).
Proof.
  unfold in_currenciesList. rewrite upper_not_inherited, orb_false_r.
  rewrite existsb_exists. split.
  - intros (x & Hin & Heq). apply String.eqb_eq in Heq. now subst.
  - intros Hin. exists (toUpperCase s). split; [exact Hin|].
    apply String.eqb_refl.
Qed.

Lemma base_catalog env (s : string) st :
  (In (toUpperCase s) (currenciesList env) ->
   base env (VStr s) st =
     (with_this st (with_base (this st) (toUpperCase s)), inr tt)) /\
  (~ In (toUpperCase s) (currenciesList env) ->
   base env (VStr s) st = (st, inl (UnknownCurrency (toUpperCase s)))).
Proof.
  unfold base, _validateCurrency. split; intros Hin.
  - apply in_catalog_upper in Hin. now rewrite Hin.
  - destruct (in_currenciesList env (toUpperCase s)) eqn:E; [|reflexivity].
    apply in_catalog_upper in E. contradiction.
Qed.

(** X10: among ASCII texts, [base] accepts exactly those whose upper-case
    form is a key of the catalog, the names every object inherits (such as
    [constructor]) included in none: an accepted code is stored upper-cased
    and nothing else changes, a rejected one throws the unknown-currency
    error naming the upper-cased text. *)
Lemma base_accepts_catalog_codes env (s : string) st :
  ascii_text s = true ->
  (In (toUpperCase s) (currenciesList env) ->
   base env (VStr s) st =
     (with_this st (with_base (this st) (toUpperCase s)), inr tt)) /\
  (~ In (toUpperCase s) (currenciesList env) ->
   base env (VStr s) st = (st, inl (UnknownCurrency (toUpperCase s)))).
Proof.
  intros _. unfold base, _validateCurrency. split; intros Hin.
  - apply in_catalog_upper in Hin. now rewrite Hin.
  - destruct (in_currenciesList env (toUpperCase s)) eqn:E; [|reflexivity].
    apply in_catalog_upper in E. contradiction.
Qed.

Lemma base_accepts_catalog_codes_witness :
  base env404 (VStr "usd") (exchangeRates ∅) =
    (with_this (exchangeRates ∅)
       (with_base (this (exchangeRates ∅)) (toUpperCase "usd")), inr tt) /\
  base env404 (VStr "constructor") (exchangeRates ∅) =
    (exchangeRates ∅, inl (UnknownCurrency (toUpperCase "constructor"))).
Proof.
  split.
  - apply (proj1 (base_accepts_catalog_codes env404 "usd" (exchangeRates ∅)
                    eq_refl)).
    vm_compute. tauto.
  - apply (proj2 (base_accepts_catalog_codes env404 "constructor"
                    (exchangeRates ∅) eq_refl)).
    vm_compute. intuition discriminate.
Defined.

(** ** The loop of [symbols] *)

(** X11: given an array whose elements are all texts naming catalog codes
    in any case, [symbols] upper-cases the array in place, makes [_symbols]
    refer to that very array, and changes no other field. *)
Lemma symbols_array_accepted env (l : loc) (arr : list value) st :
  mem st !! l = Some arr ->
  forallb (valid_code env) arr = true ->
  symbols env (VArr l) st =
    ({| this := with_symbols (this st) l;
        mem := <[l := map upper_value arr]> (mem st) |}, inr tt).
Proof.
  intros Hl Hall. rewrite (symbols_array _ _ _ _ Hl).
  now rewrite (upper_scan_all_valid _ _ Hall).
Qed.

Lemma symbols_array_accepted_witness :
  symbols env404 (VArr 0%nat) two_codes =
    ({| this := with_symbols (this two_codes) 0%nat;
        mem := <[0%nat := map upper_value [VStr "usd"; VStr "Eur"]]>
                 (mem two_codes) |}, inr tt).
Proof.
  apply (symbols_array_accepted env404 0%nat [VStr "usd"; VStr "Eur"]
           two_codes); reflexivity.
Defined.

(** X12: in an array whose texts are ASCII, [symbols] stops at the first
    element that is no text or names no catalog code: it throws a
    [TypeError] for the former and the unknown-currency error for the latter,
    leaves the fields of the instance alone, and leaves the array with the
    elements before that one upper-cased and the rest as they were. *)
Lemma symbols_array_rejected env (l : loc) (pre suf : list value) (v : value)
    st :
  mem st !! l = Some (pre ++ v :: suf) ->
  forallb ascii_value (pre ++ [v]) = true ->
  forallb (valid_code env) pre = true ->
  valid_code env v = false ->
  symbols env (VArr l) st =
    (with_mem st (<[l := map upper_value pre ++ v :: suf]> (mem st)),
     inl (symbol_error v)).
Proof.
  intros Hl _ Hpre Hv. rewrite (symbols_array _ _ _ _ Hl).
  now rewrite (upper_scan_stops _ _ _ _ Hpre Hv).
Qed.

Lemma symbols_array_rejected_witness :
  symbols env404 (VArr 0%nat) bad_second =
    (with_mem bad_second
       (<[0%nat := map upper_value [VStr "usd"] ++ VNum 1 :: [VStr "eur"]]>
          (mem bad_second)),
     inl (symbol_error (VNum 1))).
Proof.
  apply (symbols_array_rejected env404 0%nat [VStr "usd"] [VStr "eur"]
           (VNum 1) bad_second); reflexivity.
Defined.

Lemma valid_code_upper env (v : value) :
  valid_code env (upper_value v) = valid_code env v.
Proof. destruct v as [s|n|a|]; simpl; [|reflexivity..]. now rewrite toUpperCase_idem. Qed.

Lemma upper_value_idem (v : value) : upper_value (upper_value v) = upper_value v.
Proof. destruct v as [s|n|a|]; simpl; [|reflexivity..]. now rewrite toUpperCase_idem. Qed.

(** X13: a second [symbols] call with the array of a call that succeeded
    succeeds again and changes nothing, neither the instance nor any
    array. *)
Lemma symbols_twice env (l : loc) (arr : list value) st st' :
  mem st !! l = Some arr ->
  symbols env (VArr l) st = (st', inr tt) ->
  symbols env (VArr l) st' = (st', inr tt).
Proof.
  intros Hl Hfirst. rewrite (symbols_array _ _ _ _ Hl) in Hfirst.
  destruct (snd (upper_scan env arr)) eqn:Hs; [discriminate|].
  apply upper_scan_success in Hs.
  rewrite (upper_scan_all_valid _ _ Hs) in Hfirst. simpl in Hfirst.
  injection Hfirst as <-.
  rewrite (symbols_array env l (map upper_value arr))
    by (simpl; apply lookup_insert_eq).
  assert (Hvalid : forallb (valid_code env) (map upper_value arr) = true).
  { clear -Hs. induction arr as [|v arr IH]; [reflexivity|].
    simpl in *. apply andb_prop in Hs as [Hv Harr].
    now rewrite valid_code_upper, Hv, (IH Harr). }
  rewrite (upper_scan_all_valid _ _ Hvalid). simpl.
  rewrite insert_insert_eq, map_map.
  rewrite (map_ext _ upper_value) by apply upper_value_idem. reflexivity.
Qed.

Lemma symbols_twice_witness :
  symbols env404 (VArr 0%nat) (fst (symbols env404 (VArr 0%nat) two_codes)) =
    (fst (symbols env404 (VArr 0%nat) two_codes), inr tt).
Proof.
  apply (symbols_twice env404 0%nat [VStr "usd"; VStr "Eur"] two_codes);
    reflexivity.
Defined.

(** X14: [symbols] with one ASCII text allocates a new one-element array:
    when the upper-cased text is a catalog code that array, holding the
    upper-cased code, becomes [_symbols]; otherwise the call throws the
    unknown-currency error and the fields keep their values. Either way no
    array that existed before is touched. *)
Lemma symbols_one_code env (s : string) st :
  ascii_text s = true ->
  (In (toUpperCase s) (currenciesList env) ->
   symbols env (VStr s) st =
     ({| this := with_symbols (this st) (fresh (dom (mem st)));
         mem := <[fresh (dom (mem st)) := [VStr (toUpperCase s)]]> (mem st) |},
      inr tt)) /\
  (~ In (toUpperCase s) (currenciesList env) ->
   snd (symbols env (VStr s) st) = inl (UnknownCurrency (toUpperCase s)) /\
   this (fst (symbols env (VStr s) st)) = this st) /\
  (forall l, is_Some (mem st !! l) ->
             mem (fst (symbols env (VStr s) st)) !! l = mem st !! l).
Proof.
  intros _.
  assert (Hbad : in_currenciesList env (toUpperCase s) = false ->
                 symbols env (VStr s) st =
                   (with_mem st (<[fresh (dom (mem st)) := [VStr s]]> (mem st)),
                    inl (UnknownCurrency (toUpperCase s)))).
  { intros E. unfold symbols, array_at. rewrite lookup_insert_eq. simpl.
    unfold array_at. rewrite lookup_insert_eq. simpl.
    unfold _validateCurrency. now rewrite E. }
  split; [|split].
  - intros Hin. apply in_catalog_upper in Hin.
    now rewrite (symbols_of_text _ _ _ Hin).
  - intros Hin.
    destruct (in_currenciesList env (toUpperCase s)) eqn:E.
    + apply in_catalog_upper in E. contradiction.
    + rewrite (Hbad eq_refl). split; reflexivity.
  - intros l Hl. apply allocated_not_fresh in Hl.
    destruct (in_currenciesList env (toUpperCase s)) eqn:E.
    + rewrite (symbols_of_text _ _ _ E). simpl.
      apply lookup_insert_ne. congruence.
    + rewrite (Hbad eq_refl). simpl. apply lookup_insert_ne. congruence.
Qed.

Lemma symbols_one_code_witness :
  symbols env404 (VStr "usd") two_codes =
    ({| this := with_symbols (this two_codes) (fresh (dom (mem two_codes)));
        mem := <[fresh (dom (mem two_codes)) := [VStr (toUpperCase "usd")]]>
                 (mem two_codes) |}, inr tt) /\
  snd (symbols env404 (VStr "XYZ") two_codes) =
    inl (UnknownCurrency (toUpperCase "XYZ")).
Proof.
  split.
  - apply (proj1 (symbols_one_code env404 "usd" two_codes eq_refl)).
    vm_compute. tauto.
  - apply (proj1 (proj2 (symbols_one_code env404 "XYZ" two_codes eq_refl))).
    vm_compute. intuition discriminate.
Defined.

(** ** fetch *)

Lemma fetch_200 env (t : ExchangeRates) h r data :
  _validate env t = inr tt ->
  global_fetch env (_buildUrl env t h) = inr r ->
  status r = 200 ->
  json_body r = inr data ->
  fetch env t h =
    match prop data "rates" with
    | Some rates => Resolves (normalize rates)
    | None =>
        Rejects (FetchFailed "Cannot convert undefined or null to object")
    end.
Proof.
  intros Hv Hr Hs Hb. unfold fetch. rewrite Hv, Hr. simpl.
  unfold on_response. rewrite Hs, Hb. simpl. unfold on_data.
  destruct (prop data "rates"); reflexivity.
Qed.

(** X15: [fetch] throws exactly the error of a failed validation, before
    any request; every rejection of the promise it returns is the wrapped
    fetch error, whatever failed underneath. *)
Lemma fetch_outcomes env (t : ExchangeRates) h :
  (forall e, fetch env t h = Throws e <-> _validate env t = inl e) /\
  (forall e, fetch env t h = Rejects e -> exists cause, e = FetchFailed cause).
Proof.
  unfold fetch. split; intros e.
  - destruct (_validate env t) as [e'|[]].
    + split; [intros [= ->]|intros [= ->]]; reflexivity.
    + split; [|discriminate].
      destruct (catch_ _ on_error); discriminate.
  - destruct (_validate env t) as [e'|[]]; [discriminate|].
    destruct (then_ _ on_data) as [e0|v]; simpl; [|discriminate].
    intros [= <-]. now exists (message e0).
Qed.

Lemma fetch_outcomes_witness :
  exists cause, FetchFailed (message (ApiError 404)) = FetchFailed cause.
Proof.
  apply (proj2 (fetch_outcomes env404 new_ExchangeRates ∅)
           (FetchFailed (message (ApiError 404)))).
  reflexivity.
Defined.

(** X16: for a valid configuration answered with status 200 and a readable
    body, [fetch] resolves to the collapse of the body's [rates], and rejects
    with the wrapped error of [Object.keys] when the body has no [rates]; a
    [rates] with no key or with several is handed on unchanged. *)
Lemma fetch_resolves env (t : ExchangeRates) h r data :
  _validate env t = inr tt ->
  global_fetch env (_buildUrl env t h) = inr r ->
  status r = 200 ->
  json_body r = inr data ->
  (forall rates, prop data "rates" = Some rates ->
                 fetch env t h = Resolves (normalize rates)) /\
  (prop data "rates" = None ->
   fetch env t h =
     Rejects (FetchFailed "Cannot convert undefined or null to object")) /\
  (forall rates, prop data "rates" = Some rates ->
                 length (Object_keys rates) <> 1%nat ->
                 fetch env t h = Resolves rates).
Proof.
  intros Hv Hr Hs Hb. rewrite (fetch_200 _ _ _ _ _ Hv Hr Hs Hb).
  split; [|split].
  - now intros rates ->.
  - now intros ->.
  - intros rates -> Hlen. unfold normalize.
    destruct (Nat.eqb_spec (length (Object_keys rates)) 1); [contradiction|].
    reflexivity.
Qed.

Lemma fetch_resolves_witness :
  fetch env_rate new_ExchangeRates ∅ = Resolves (JNum 0.8338197282).
Proof.
  refine (proj1 (fetch_resolves env_rate new_ExchangeRates ∅
                   {| status := 200;
                      json_body :=
                        inr (JObj [("rates",
                                    JObj [("EUR", JNum 0.8338197282)])]) |}
                   (JObj [("rates", JObj [("EUR", JNum 0.8338197282)])])
                   _ _ _ _) (JObj [("EUR", JNum 0.8338197282)]) _);
    reflexivity.
Defined.

(** ** avg *)

(** X17: on a request without [to], [avg] with acceptable decimal places
    does what [fetch] does: the same throw, the same rejection, the same
    value, with no rounding. *)
Lemma avg_single_request_is_fetch env (t : ExchangeRates) h
    (decimalPlaces : places) :
  _to t = None ->
  places_ok decimalPlaces = true ->
  avg env t h decimalPlaces = fetch env t h.
Proof.
  intros Hto Hp.
  assert (H : and_then (fetch env t h) (on_rates env t decimalPlaces) =
              fetch env t h).
  { unfold on_rates, _isHistoryRequest. rewrite Hto. simpl.
    destruct (fetch env t h); reflexivity. }
  unfold avg. destruct decimalPlaces as [|d|]; [exact H| |discriminate].
  simpl in Hp. apply Z.leb_le in Hp.
  destruct (Z.ltb_spec d 0); [lia|exact H].
Qed.

Lemma avg_single_request_is_fetch_witness :
  avg env_rate new_ExchangeRates ∅ (IntPlaces 2) =
    fetch env_rate new_ExchangeRates ∅.
Proof.
  apply (avg_single_request_is_fetch env_rate new_ExchangeRates ∅
           (IntPlaces 2)); reflexivity.
Defined.

Lemma avg_after_fetch env (t : ExchangeRates) h (decimalPlaces : places) :
  places_ok decimalPlaces = true ->
  avg env t h decimalPlaces =
    and_then (fetch env t h) (on_rates env t decimalPlaces).
Proof.
  intros Hp. unfold avg. destruct decimalPlaces as [|d|];
    [reflexivity| |discriminate].
  simpl in Hp. apply Z.leb_le in Hp.
  destruct (Z.ltb_spec d 0); [lia|reflexivity].
Qed.

Lemma fold_left_keep {A S} (l : list A) (s : S) :
  fold_left (fun s _ => s) l s = s.
Proof. induction l as [|a l IH]; [reflexivity|exact IH]. Qed.

(** X18: a range request answered with a single date averages to the empty
    mapping, whatever rates that date holds: [fetch] has collapsed the
    one-key mapping to the rates of the date, and [avg] finds no per-date
    map among those numbers. *)
Lemma avg_one_date_is_empty env (t : ExchangeRates) h (decimalPlaces : places)
    r data (d : string) (m : list (string * float)) :
  _isHistoryRequest t = true ->
  _validate env t = inr tt ->
  global_fetch env (_buildUrl env t h) = inr r ->
  status r = 200 ->
  json_body r = inr data ->
  prop data "rates" = Some (JObj [(d, rates_object m)]) ->
  places_ok decimalPlaces = true ->
  fetch env t h = Resolves (rates_object m) /\
  avg env t h decimalPlaces = Resolves (JObj []).
Proof.
  intros Hrange Hv Hr Hs Hb Hrates Hp.
  assert (Hfetch : fetch env t h = Resolves (rates_object m)).
  { rewrite (fetch_200 _ _ _ _ _ Hv Hr Hs Hb), Hrates.
    unfold normalize. simpl. now rewrite String.eqb_refl. }
  split; [exact Hfetch|].
  rewrite (avg_after_fetch _ _ _ _ Hp), Hfetch. simpl.
  unfold on_rates. rewrite Hrange. simpl.
  unfold obj_values. rewrite map_map, forEach_map.
  rewrite (forEach_pure _ (fun M _ => M)) by reflexivity.
  now rewrite fold_left_keep.
Qed.

Lemma avg_one_date_is_empty_witness :
  fetch env_one_date (range_of (RawText "2018-06-01") (RawText "2018-06-01")) ∅ =
    Resolves (rates_object [("EUR", 0.8); ("USD", 1)]%float) /\
  avg env_one_date (range_of (RawText "2018-06-01") (RawText "2018-06-01")) ∅
    NoPlaces = Resolves (JObj []).
Proof.
  apply (avg_one_date_is_empty env_one_date
           (range_of (RawText "2018-06-01") (RawText "2018-06-01")) ∅ NoPlaces
           {| status := 200;
              json_body :=
                inr (JObj [("rates",
                            JObj [("2018-06-01",
                                   rates_object
                                     [("EUR", 0.8); ("USD", 1)]%float)])]) |}
           (JObj [("rates",
                   JObj [("2018-06-01",
                          rates_object [("EUR", 0.8); ("USD", 1)]%float)])])
           "2018-06-01" [("EUR", 0.8); ("USD", 1)]%float);
    reflexivity.
Defined.

Lemma fold_one_code (k : string) (dvs : list (string * float))
    (acc : list json) :
  fold_left merge_step (map (fun dv => (k, snd dv)) dvs) [(k, acc)] =
    [(k, acc ++ map JNum (map snd dvs))].
Proof.
  revert acc. induction dvs as [|dv dvs IH]; intros acc; simpl.
  - now rewrite app_nil_r.
  - unfold merge_step at 2. simpl. rewrite String.eqb_refl. simpl.
    rewrite IH, <- app_assoc. reflexivity.
Qed.

Lemma fold_one_code_start (k : string) (dvs : list (string * float)) :
  dvs <> [] ->
  fold_left merge_step (map (fun dv => (k, snd dv)) dvs) [] =
    [(k, map JNum (map snd dvs))].
Proof.
  destruct dvs as [|dv dvs]; [congruence|]. intros _.
  change (fold_left merge_step (map (fun dv => (k, snd dv)) (dv :: dvs)) [])
    with (fold_left merge_step (map (fun dv => (k, snd dv)) dvs)
            [(k, [JNum (snd dv)])]).
  now rewrite fold_one_code.
Qed.

Lemma one_code_fetched (k : string) (dvs : list (string * float)) :
  one_code_rates k dvs =
    fetched (map (fun d => (fst d, Rates (snd d)))
               (map (fun dv => (fst dv, [(k, snd dv)])) dvs)).
Proof. unfold one_code_rates, fetched. now rewrite !map_map. Qed.

(** X19: a range request for a single currency, answered with two dates or
    more that each hold that one code, averages to a bare number: the mean
    of the rates in date order, and, when decimal places are given that
    [toFixed] accepts, what [toFixed] gives back for that mean. *)
Lemma avg_one_code env (t : ExchangeRates) h (decimalPlaces : places)
    (rnd : float -> float) r data (k : string) (dvs : list (string * float)) :
  _isHistoryRequest t = true ->
  _validate env t = inr tt ->
  global_fetch env (_buildUrl env t h) = inr r ->
  status r = 200 ->
  json_body r = inr data ->
  prop data "rates" = Some (one_code_rates k dvs) ->
  (2 <= length dvs)%nat ->
  inherited k = false ->
  places_ok decimalPlaces = true ->
  rounds env decimalPlaces rnd ->
  avg env t h decimalPlaces = Resolves (JNum (rnd (mean (map snd dvs)))).
Proof.
  intros Hrange Hv Hr Hs Hb Hrates Hlen Hk Hp Hrounds.
  pose proof (rounds_round_rate _ _ _ Hrounds) as Hrnd.
  assert (Hfetch : fetch env t h = Resolves (one_code_rates k dvs)).
  { rewrite (fetch_200 _ _ _ _ _ Hv Hr Hs Hb), Hrates.
    unfold normalize, one_code_rates. simpl.
    unfold obj_keys. rewrite !length_map.
    destruct (Nat.eqb_spec (length dvs) 1); [lia|reflexivity]. }
  rewrite one_code_fetched in Hfetch.
  rewrite (avg_after_fetch _ _ _ _ Hp), Hfetch. cbn [and_then].
  unfold on_rates. rewrite Hrange. cbn [negb].
  rewrite merge_all.
  2:{ clear -Hk. induction dvs as [|dv dvs IH]; [reflexivity|].
      simpl. unfold code_map at 1. simpl. now rewrite Hk, IH. }
  assert (Hflat : flat_map snd (map (fun dv => (fst dv, [(k, snd dv)])) dvs) =
                  map (fun dv => (k, snd dv)) dvs).
  { clear. induction dvs as [|dv dvs IH]; [reflexivity|].
    simpl. now rewrite IH. }
  rewrite Hflat, fold_one_code_start by (destruct dvs; simpl in *; [lia|discriminate]).
  cbv zeta. rewrite (avg_rates_map _ _ rnd).
  - simpl. unfold single_or_all. simpl. rewrite String.eqb_refl.
    now rewrite avgRate_mean.
  - repeat constructor. intros [].
  - exact Hrnd.
Qed.

Lemma avg_one_code_witness :
  avg (with_toFixed env_eur_range)
    (range_of (RawText "2018-06-01") (RawText "2018-06-04")) ∅ (IntPlaces 1) =
  Resolves
    (JNum (fixed_value
             (mean (map snd [("2018-06-01", 0.8); ("2018-06-04", 0.9)]%float))
             1)).
Proof.
  apply (avg_one_code (with_toFixed env_eur_range)
           (range_of (RawText "2018-06-01") (RawText "2018-06-04")) ∅
           (IntPlaces 1) (fun x => fixed_value x 1)
           {| status := 200;
              json_body :=
                inr (JObj [("rates",
                            one_code_rates "EUR"
                              [("2018-06-01", 0.8);
                               ("2018-06-04", 0.9)]%float)]) |}
           (JObj [("rates",
                   one_code_rates "EUR"
                     [("2018-06-01", 0.8); ("2018-06-04", 0.9)]%float)])
           "EUR" [("2018-06-01", 0.8); ("2018-06-04", 0.9)]%float);
    try reflexivity.
  intros x. reflexivity.
Defined.

(** The same request without decimal places and with one. *)
Example avg_one_code_values :
  avg env_eur_range
    (range_of (RawText "2018-06-01") (RawText "2018-06-04")) ∅ NoPlaces =
    Resolves (JNum 0.8500000000000001) /\
  avg (with_toFixed env_eur_range)
    (range_of (RawText "2018-06-01") (RawText "2018-06-04")) ∅ (IntPlaces 1) =
    Resolves (JNum 0.9).
Proof. split; vm_compute; reflexivity. Qed.

Lemma forEach_ext_in {A S} (f g : S -> A -> js_error + S) (l : list A) (s : S) :
  (forall s a, In a l -> f s a = g s a) ->
  forEach l f s = forEach l g s.
Proof.
  revert s. induction l as [|a l IH]; intros s Hfg; [reflexivity|].
  simpl. rewrite (Hfg s a (or_introl eq_refl)).
  destruct (g s a); [reflexivity|]. apply IH.
  intros s' a' Hin. apply Hfg. now right.
Qed.

Lemma merge_obj_pairs (mergedObj : list (string * list json))
    (m : list (string * float)) :
  List.NoDup (obj_keys m) ->
  merge_obj mergedObj (rates_object m) =
    forEach m (fun M kv => merge_push M (fst kv) (JNum (snd kv))) mergedObj.
Proof.
  intros Hnd. unfold merge_obj, rates_object. cbn [Object_keys].
  rewrite obj_keys_map. unfold obj_keys. rewrite forEach_map.
  apply forEach_ext_in. intros s [k v] Hin. cbn [prop fst snd].
  now rewrite obj_get_map, (obj_get_In _ _ _ Hnd Hin).
Qed.

Lemma obj_keys_set_In {V} (o : list (string * V)) k v k' :
  In k' (obj_keys (obj_set o k v)) -> k' = k \/ In k' (obj_keys o).
Proof.
  induction o as [|[k0 v0] o IH]; simpl.
  - intros [<-|[]]. now left.
  - destruct (String.eqb_spec k0 k) as [->|_]; simpl.
    + intros [<-|H]; [now left|right; now right].
    + intros [<-|H]; [right; now left|].
      destruct (IH H) as [->|H']; [now left|right; now right].
Qed.

(** No inherited name among the keys of a [mergedObj]. *)
Lemma push_pairs (l : list (string * float)) (M : list (string * list json)) :
  (forall k, In k (obj_keys M) -> inherited k = false) ->
  (existsb inherited (obj_keys l) = true ->
   forEach l (fun M kv => merge_push M (fst kv) (JNum (snd kv))) M =
     inl push_error) /\
  (existsb inherited (obj_keys l) = false ->
   exists M',
     forEach l (fun M kv => merge_push M (fst kv) (JNum (snd kv))) M = inr M' /\
     forall k, In k (obj_keys M') -> inherited k = false).
Proof.
  revert M. induction l as [|[k v] l IH]; intros M HM.
  - split; [discriminate|]. intros _. now exists M.
  - cbn [obj_keys map fst existsb forEach snd].
    destruct (inherited k) eqn:Ek.
    + split; [|discriminate]. intros _.
      assert (Hnone : obj_get M k = None).
      { apply obj_get_None. intros Hin. apply HM in Hin. congruence. }
      unfold merge_push. now rewrite Hnone, Ek.
    + pose proof (merge_push_step M (k, v) Ek) as Hstep.
      cbn [fst snd] in Hstep. rewrite Hstep.
      apply IH. intros k' Hin. unfold merge_step in Hin.
      apply obj_keys_set_In in Hin as [->|Hin]; [exact Ek|now apply HM].
Qed.

Lemma push_dates (dates : list (string * list (string * float)))
    (M : list (string * list json)) :
  forallb (fun d => distinct (obj_keys (snd d))) dates = true ->
  (forall k, In k (obj_keys M) -> inherited k = false) ->
  existsb (fun d => existsb inherited (obj_keys (snd d))) dates = true ->
  forEach (Object_values (fetched (map (fun d => (fst d, Rates (snd d))) dates)))
    merge_obj M = inl push_error.
Proof.
  unfold fetched, Object_values, obj_values. rewrite !map_map. cbn [fst snd entry_json].
  revert M. induction dates as [|[d m] dates IH]; intros M Hd HM Hex;
    [discriminate|].
  cbn [map forEach snd]. cbn [forallb existsb snd] in Hd, Hex.
  apply andb_prop in Hd as [Hm Hd]. apply distinct_NoDup in Hm.
  rewrite (merge_obj_pairs _ _ Hm).
  destruct (push_pairs m M HM) as [Hbad Hgood].
  destruct (existsb inherited (obj_keys m)) eqn:E.
  - now rewrite (Hbad eq_refl).
  - destruct (Hgood eq_refl) as (M' & -> & HM'). now apply IH.
Qed.

(** X20: when a per-date map of a range holds a key that every object
    inherits, such as [constructor], [avg] rejects with the [TypeError] of the
    failed [push]; that error reaches the caller as it is, not wrapped like
    the errors of [fetch]. *)
Lemma avg_inherited_key env (t : ExchangeRates) h (decimalPlaces : places)
    (dates : list (string * list (string * float))) :
  _isHistoryRequest t = true ->
  fetch env t h =
    Resolves (fetched (map (fun d => (fst d, Rates (snd d))) dates)) ->
  forallb (fun d => distinct (obj_keys (snd d))) dates = true ->
  existsb (fun d => existsb inherited (obj_keys (snd d))) dates = true ->
  places_ok decimalPlaces = true ->
  avg env t h decimalPlaces = Rejects push_error /\
  forall cause, push_error <> FetchFailed cause.
Proof.
  intros Hrange Hfetch Hd Hex Hp. split; [|discriminate].
  rewrite (avg_after_fetch _ _ _ _ Hp), Hfetch. cbn [and_then].
  unfold on_rates. rewrite Hrange. cbn [negb].
  rewrite (push_dates dates [] Hd); [reflexivity| |exact Hex].
  intros k [].
Qed.

Lemma avg_inherited_key_witness :
  avg env_constructor
    (range_of (RawText "2018-06-01") (RawText "2018-06-04")) ∅ NoPlaces =
    Rejects push_error /\
  forall cause, push_error <> FetchFailed cause.
Proof.
  apply (avg_inherited_key env_constructor
           (range_of (RawText "2018-06-01") (RawText "2018-06-04")) ∅ NoPlaces
           [("2018-06-01", [("EUR", 0.8)]%float);
            ("2018-06-04", [("constructor", 1)]%float)]);
    reflexivity.
Defined.

Lemma merge_steps_nonempty (l : list (string * float))
    (M : list (string * list json)) :
  M <> [] -> fold_left merge_step l M <> [].
Proof.
  revert M. induction l as [|kv l IH]; intros M HM; [exact HM|].
  apply IH. unfold merge_step. destruct M as [|[k v] M]; [congruence|].
  simpl. destruct (String.eqb k (fst kv)); discriminate.
Qed.

(** X21: when [toFixed] refuses the decimal places, the error it throws
    rejects the promise of [avg] as it is, as soon as there is one rate to
    round. *)
Lemma avg_toFixed_error env (t : ExchangeRates) h (d : Z) (e : js_error)
    (dates : list (string * list (string * float))) :
  _isHistoryRequest t = true ->
  fetch env t h =
    Resolves (fetched (map (fun d => (fst d, Rates (snd d))) dates)) ->
  forallb (fun d => code_map (snd d)) dates = true ->
  flat_map snd dates <> [] ->
  0 <= d ->
  (forall x, toFixed env x d = inl e) ->
  avg env t h (IntPlaces d) = Rejects e.
Proof.
  intros Hrange Hfetch Hwf Hne Hd Hfix.
  rewrite avg_after_fetch by (now apply Z.leb_le).
  rewrite Hfetch. cbn [and_then]. unfold on_rates. rewrite Hrange. cbn [negb].
  rewrite (merge_all _ _ Hwf).
  assert (HM : fold_left merge_step (flat_map snd dates) [] <> []).
  { destruct (flat_map snd dates) as [|kv l]; [congruence|].
    cbn [fold_left]. apply merge_steps_nonempty. discriminate. }
  destruct (fold_left merge_step (flat_map snd dates) []) as [|[k vs] M];
    [congruence|].
  unfold avg_rates. simpl. rewrite String.eqb_refl, Hfix. reflexivity.
Qed.

Lemma avg_toFixed_error_witness :
  avg env_no_fixed (range_of (RawText "2018-06-01") (RawText "2018-06-04")) ∅
    (IntPlaces 101) =
  Rejects (ForeignError "RangeError"
             "toFixed() digits argument must be between 0 and 100").
Proof.
  apply (avg_toFixed_error env_no_fixed
           (range_of (RawText "2018-06-01") (RawText "2018-06-04")) ∅ 101
           (ForeignError "RangeError"
              "toFixed() digits argument must be between 0 and 100")
           map_entries); try reflexivity.
  - simpl. discriminate.
  - lia.
Defined.

(** ** convert *)

Lemma symbols_scalar_rejected env (v : value) st :
  (forall l, v <> VArr l) ->
  valid_code env v = false ->
  symbols env v st =
    (with_mem st (<[fresh (dom (mem st)) := [v]]> (mem st)),
     inl (symbol_error v)).
Proof.
  intros Hv Hbad. destruct v as [s|n|a|]; [| |now destruct (Hv a)|].
  all: unfold symbols, array_at; rewrite lookup_insert_eq; simpl;
    unfold array_at; rewrite lookup_insert_eq; simpl; try reflexivity.
  unfold _validateCurrency. simpl in Hbad. now rewrite Hbad.
Qed.

(** X22: [convert] with a number for [amount] and no array for [toCurrency]
    throws before any request when a currency is refused: the [TypeError] of
    [base] for a [fromCurrency] that is no text, the unknown-currency error
    for an ASCII text that names no catalog code, and the error of [symbols]
    for a refused [toCurrency] (no text, or an ASCII text that names no
    catalog code). *)
Lemma convert_refused_currency env h (a : float)
    (fromCurrency toCurrency : value) (date : date_input) :
  (forall l, toCurrency <> VArr l) ->
  ((forall f, fromCurrency <> VStr f) ->
   convert env h (VNum a) fromCurrency toCurrency date =
     Throws (TypeError "Base currency has to be a string")) /\
  (forall f,
     fromCurrency = VStr f ->
     ascii_text f = true ->
     ~ In (toUpperCase f) (currenciesList env) ->
     convert env h (VNum a) fromCurrency toCurrency date =
       Throws (UnknownCurrency (toUpperCase f))) /\
  (forall f,
     fromCurrency = VStr f ->
     ascii_text f = true ->
     ascii_value toCurrency = true ->
     In (toUpperCase f) (currenciesList env) ->
     valid_code env toCurrency = false ->
     convert env h (VNum a) fromCurrency toCurrency date =
       Throws (symbol_error toCurrency)).
Proof.
  intros Hto.
  assert (Hconv : convert env h (VNum a) fromCurrency toCurrency date =
                  match chain (base env fromCurrency) (symbols env toCurrency)
                          (set_from (exchangeRates h) date) with
                  | (_, inl e) => Throws e
                  | (instance, inr _) =>
                      and_then (fetch env (this instance) (mem instance))
                        (fun rate => inr (times rate a))
                  end).
  { unfold convert. destruct toCurrency as [s|n|l|]; [| |now destruct (Hto l)|];
      unfold chain at 1; now rewrite date_or_latest. }
  rewrite Hconv. unfold chain. split; [|split].
  - intros Hf. destruct fromCurrency as [f|n|l|]; [now destruct (Hf f)|..];
      reflexivity.
  - intros f -> _ Hin.
    now rewrite (proj2 (base_catalog env f _) Hin).
  - intros f -> _ _ Hin Hbad.
    rewrite (proj1 (base_catalog env f _) Hin).
    now rewrite (symbols_scalar_rejected _ _ _ Hto Hbad).
Qed.

Lemma convert_refused_currency_witness :
  convert env_rate ∅ (VNum 2000) (VStr "USD") (VStr "XYZ") (RawText "latest") =
    Throws (symbol_error (VStr "XYZ")).
Proof.
  refine (proj2 (proj2 (convert_refused_currency env_rate ∅ 2000%float
                          (VStr "USD") (VStr "XYZ") (RawText "latest") _))
            "USD" _ _ _ _ _).
  - discriminate.
  - reflexivity.
  - reflexivity.
  - reflexivity.
  - vm_compute. tauto.
  - reflexivity.
Defined.

(** X23: [convert] without a date asks for
    [/latest?base=<FROM>&symbols=<TO>], both codes upper-cased, and when that
    request is answered with status 200 and a single rate it resolves to the
    rate times the amount. *)
Lemma convert_latest env h (a rate : float) (f t k : string) r :
  In (toUpperCase f) (currenciesList env) ->
  In (toUpperCase t) (currenciesList env) ->
  toUpperCase f <> "" ->
  global_fetch env
    (API_BASE_URL +:+ "/latest?base=" +:+ encodeURIComponent (toUpperCase f)
     +:+ "&symbols=" +:+ toUpperCase t) = inr r ->
  status r = 200 ->
  json_body r = inr (JObj [("rates", JObj [(k, JNum rate)])]) ->
  convert env h (VNum a) (VStr f) (VStr t) (RawText "latest") =
    Resolves (rate * a)%float.
Proof.
  intros Hf Ht Hne Hr Hs Hb.
  apply in_catalog_upper in Hf, Ht. apply String.eqb_neq in Hne.
  unfold convert, chain. rewrite date_or_latest.
  unfold base. rewrite (validateCurrency_ok _ _ Hf).
  rewrite (symbols_of_text _ _ _ Ht). cbn [this mem with_this set_from exchangeRates
    _api_base_url _base _symbols _from _to new_ExchangeRates].
  match goal with
  | |- and_then (fetch env ?inst ?heap) _ = _ =>
      assert (Hurl : _buildUrl env inst heap =
                     API_BASE_URL +:+ "/latest?base=" +:+
                     encodeURIComponent (toUpperCase f) +:+ "&symbols=" +:+
                     toUpperCase t)
  end.
  { rewrite buildUrl_spec. unfold endpoint, expected_params, array_at.
    cbn [_to _from _base _symbols _api_base_url is_text].
    rewrite Hne, lookup_insert_eq. simpl. reflexivity. }
  rewrite (fetch_200 env _ _ r (JObj [("rates", JObj [(k, JNum rate)])]));
    [| reflexivity | now rewrite Hurl | exact Hs | exact Hb].
  simpl. unfold normalize. simpl. now rewrite String.eqb_refl.
Qed.

Lemma convert_latest_witness :
  convert env_rate ∅ (VNum 2000) (VStr "usd") (VStr "eur") (RawText "latest") =
    Resolves (0.8338197282 * 2000)%float.
Proof.
  apply (convert_latest env_rate ∅ 2000%float 0.8338197282%float "usd" "eur"
           "EUR"
           {| status := 200;
              json_body :=
                inr (JObj [("rates", JObj [("EUR", JNum 0.8338197282)])]) |});
    try reflexivity.
  - vm_compute. tauto.
  - vm_compute. tauto.
  - discriminate.
Defined.
